(** * changelog_handler.version: the [SemanticVersion] value type

    A shallow embedding of [src/changelog_handler/version.py]: the regular
    expressions the module compiles, the constructor, the display method,
    the two comparison methods the class defines and the ones
    [functools.total_ordering] derives from them, followed by the
    properties of the class.

    Modelling conventions.
    - A Python [str] is a [list ascii]: the code points below 256.  On that
      range the class [\d] of the [re] module is exactly [0-9]; inputs with
      decimal digits of other scripts are outside the model.
    - A Python [int] is a [Z].  [int] reads a numeral of at most 4300
      digits, the limit the interpreter starts with; the same limit on
      printing is the predicate [printable].
    - A call that may raise returns a [result]: a value or the exception. *)

From Stdlib Require Import String Ascii List NArith ZArith Bool Arith Lia.
Import ListNotations.
Open Scope list_scope.

(** ** Python values *)

Definition str := list ascii.

(** A string literal of the source, as a [str]. *)
Definition lit (s : string) : str := list_ascii_of_string s.

Definition str_eqb (a b : str) : bool :=
  if list_eq_dec ascii_dec a b then true else false.

Inductive exn : Type :=
| TypeError (msg : string)
| InvalidSemanticVersion (msg : string)
| IndexError (msg : string)
| ValueError (msg : string).

Inductive result (A : Type) : Type :=
| Return (a : A)
| Raise (e : exn).
Arguments Return {A} a.
Arguments Raise {A} e.

Definition bind {A B : Type} (m : result A) (k : A -> result B) : result B :=
  match m with
  | Return a => k a
  | Raise e => Raise e
  end.

Notation "x <- m ;; k" := (bind m (fun x => k))
  (at level 61, m at next level, right associativity).

(** ** The [re] module, as far as the patterns of the module use it

    A pattern is matched by backtracking: [run r s g] lists, in the order
    the engine tries them, every way [r] can match a prefix of [s], each as
    the input left over and the named groups bound so far.  Quantifiers are
    greedy, so the longer alternative comes first. *)

Module Re.

Inductive regex : Type :=
| Class (p : ascii -> bool)            (* [...], \d, an escaped character *)
| Seq (r1 r2 : regex)                  (* r1r2 *)
| Opt (r : regex)                      (* r? *)
| Star (r : regex)                     (* r* *)
| Group (name : option string) (r : regex)   (* (r) and (?P<name>r) *)
| Dollar.                              (* $ *)

(** [r+] is [rr*]. *)
Definition Plus (r : regex) : regex := Seq r (Star r).

(** The named groups bound so far, the latest first. *)
Definition groups := list (string * str).

Definition config : Type := str * groups.

Definition set_group (name : option string) (text : str) (g : groups) : groups :=
  match name with
  | Some n => (n, text) :: g
  | None => g
  end.

(** Greedy iteration of [step]: as many rounds as possible first, then
    fewer.  A round that consumes nothing is not repeated. *)
Fixpoint iterate (step : str -> groups -> list config) (fuel : nat)
    (s : str) (g : groups) : list config :=
  match fuel with
  | O => [(s, g)]
  | S fuel' =>
      flat_map (fun c : config =>
                  if Nat.ltb (length (fst c)) (length s)
                  then iterate step fuel' (fst c) (snd c)
                  else [])
               (step s g)
      ++ [(s, g)]
  end.

Fixpoint run (r : regex) (s : str) (g : groups) : list config :=
  match r with
  | Class p =>
      match s with
      | c :: s' => if p c then [(s', g)] else []
      | [] => []
      end
  | Seq r1 r2 => flat_map (fun c : config => run r2 (fst c) (snd c)) (run r1 s g)
  | Opt r1 => run r1 s g ++ [(s, g)]
  | Star r1 => iterate (run r1) (length s) s g
  | Group name r1 =>
      map (fun c : config =>
             (fst c, set_group name (firstn (length s - length (fst c)) s) (snd c)))
          (run r1 s g)
  | Dollar =>
      (* the end of the string, or just before a newline that ends it *)
      match s with
      | [] => [(s, g)]
      | [c] => if Ascii.eqb c "010"%char then [(s, g)] else []
      | _ => []
      end
  end.

(** [Pattern.fullmatch]: the first way to match that consumes the whole
    string. *)
Definition fullmatch (r : regex) (s : str) : option groups :=
  match find (fun c : config => match fst c with [] => true | _ => false end)
             (run r s []) with
  | Some c => Some (snd c)
  | None => None
  end.

Fixpoint lookup (name : string) (g : groups) : option str :=
  match g with
  | [] => None
  | (n, v) :: g' => if String.eqb n name then Some v else lookup name g'
  end.

(** [Match.groupdict(default)]: a group that took no part in the match
    reads as [default]. *)
Definition groupdict (default : str) (m : groups) (name : string) : str :=
  match lookup name m with
  | Some v => v
  | None => default
  end.

(** The same matching, as a relation: [matches r s g s' g'] when [r] can
    take the input [s] with groups [g] to the rest [s'] with groups [g']. *)
Inductive matches : regex -> str -> groups -> str -> groups -> Prop :=
| m_class p c s g :
    p c = true -> matches (Class p) (c :: s) g s g
| m_seq r1 r2 s g s1 g1 s2 g2 :
    matches r1 s g s1 g1 -> matches r2 s1 g1 s2 g2 ->
    matches (Seq r1 r2) s g s2 g2
| m_opt_some r s g s' g' :
    matches r s g s' g' -> matches (Opt r) s g s' g'
| m_opt_none r s g :
    matches (Opt r) s g s g
| m_star_more r s g s1 g1 s2 g2 :
    matches r s g s1 g1 -> length s1 < length s ->
    matches (Star r) s1 g1 s2 g2 -> matches (Star r) s g s2 g2
| m_star_done r s g :
    matches (Star r) s g s g
| m_group name r s g s' g' :
    matches r s g s' g' ->
    matches (Group name r) s g s'
            (set_group name (firstn (length s - length s') s) g')
| m_dollar_end g :
    matches Dollar [] g [] g
| m_dollar_newline g :
    matches Dollar ["010"%char] g ["010"%char] g.

End Re.

Import Re.

(** ** The patterns of the module *)

Definition in_range (lo hi c : ascii) : bool :=
  (nat_of_ascii lo <=? nat_of_ascii c) && (nat_of_ascii c <=? nat_of_ascii hi).

(** [\d], on the characters of the model. *)
Definition is_digit (c : ascii) : bool := in_range "0" "9" c.

(** [[a-zA-Z0-9-]] *)
Definition is_identifier_char (c : ascii) : bool :=
  in_range "a" "z" c || in_range "A" "Z" c || in_range "0" "9" c
  || Ascii.eqb c "-".

(** A literal character of a pattern. *)
Definition chr (c : ascii) : regex := Class (Ascii.eqb c).

Infix ">>" := Seq (at level 60, right associativity).

Definition IDENTIFIER : regex := Class is_identifier_char.

Definition DOTSEP_ID : regex :=
  Plus IDENTIFIER >> Star (Group None (chr "." >> Plus IDENTIFIER)).

Definition PRE_RELEASE : regex := Group (Some "pre_release"%string) DOTSEP_ID.

Definition BUILD : regex := Group (Some "build"%string) DOTSEP_ID.

Definition VERSION : regex :=
  Group (Some "major"%string) (Plus (Class is_digit)) >> chr "." >>
  Group (Some "minor"%string) (Plus (Class is_digit)) >> chr "." >>
  Group (Some "patch"%string) (Plus (Class is_digit)).

Definition SEMVAR : regex :=
  Opt (Class (fun c => Ascii.eqb c "V" || Ascii.eqb c "v")) >>
  Group (Some "version"%string) VERSION >>
  Opt (Group None (chr "-" >> PRE_RELEASE)) >>
  Opt (Group None (chr "+" >> BUILD)) >>
  Dollar.

(** ** Builtins the class calls *)

Definition digit_value (c : ascii) : Z := Z.of_nat (nat_of_ascii c) - 48.

(** The decimal numeral of a natural number. *)
Fixpoint digits (fuel : nat) (n : N) (acc : str) : str :=
  match fuel with
  | O => acc
  | S fuel' =>
      let acc' := ascii_of_N (48 + n mod 10) :: acc in
      if (n <? 10)%N then acc' else digits fuel' (n / 10)%N acc'
  end.

(** The numeral [f'{n}'] prints.  The interpreter refuses to print an
    [int] of more than [int_max_str_digits] digits; [format_int] is the
    numeral itself, and [printable] says that it is within the limit.  The
    fields of a value the constructor returned are (lemma
    [constructed_printable]); a statement about the display of other
    values assumes it. *)
Definition format_int (z : Z) : str :=
  match z with
  | Zneg _ => "-"%char :: digits (S (N.to_nat (Z.to_N (- z)))) (Z.to_N (- z)) []
  | _ => digits (S (N.to_nat (Z.to_N z))) (Z.to_N z) []
  end.

(** [sys.get_int_max_str_digits()], as the interpreter starts with it. *)
Definition int_max_str_digits : nat := 4300.

Definition printable (z : Z) : bool :=
  Nat.leb (length (format_int z)) int_max_str_digits.

(** The [ValueError] of [int] on a numeral of [n] digits, [n] above the
    limit. *)
Definition too_many_digits (n : nat) : exn :=
  ValueError
    ("Exceeds the limit (4300 digits) for integer string conversion: value has "
     ++ string_of_list_ascii (format_int (Z.of_nat n))
     ++ " digits; use sys.set_int_max_str_digits() to increase the limit").

(** [int(s)] on a decimal numeral.  The constructor only passes matches of
    [\d+] (lemma [SEMVAR_match_shape]); the signs, blanks and underscores
    [int] also reads are not modelled, and such a string is refused here.
    Every digit counts towards the limit, leading zeros too. *)
Definition int (s : str) : result Z :=
  match s with
  | [] => Raise (ValueError "invalid literal for int() with base 10")
  | _ :: _ =>
      if forallb is_digit s
      then if Nat.leb (length s) int_max_str_digits
           then Return (fold_left (fun acc c => 10 * acc + digit_value c)%Z s 0%Z)
           else Raise (too_many_digits (length s))
      else Raise (ValueError "invalid literal for int() with base 10")
  end.

(** [s.split(sep)] for a separator of one character. *)
Fixpoint split (sep : ascii) (s : str) : list str :=
  match s with
  | [] => [[]]
  | c :: s' =>
      if Ascii.eqb c sep then [] :: split sep s'
      else match split sep s' with
           | p :: ps => (c :: p) :: ps
           | [] => [[c]]
           end
  end.

(** [s[i]] *)
Definition getitem (s : str) (i : nat) : result ascii :=
  match nth_error s i with
  | Some c => Return c
  | None => Raise (IndexError "string index out of range")
  end.

(** ** class SemanticVersion *)

Record SemanticVersion : Type := {
  _major : Z;
  _minor : Z;
  _patch : Z;
  _preRelease : str;
  _build : str
}.

Inductive pyobj : Type :=
| PyNone
| PyBool (b : bool)
| PyInt (z : Z)
| PyStr (s : str)
| PySemVer (v : SemanticVersion).

(** The body of the loop of the constructor over the parts of the
    pre-release: [p != '0' and p[0] == '0'], then the [raise]. *)
Fixpoint check_parts (parts : list str) : result unit :=
  match parts with
  | [] => Return tt
  | p :: rest =>
      leading <- (if negb (str_eqb p (lit "0"))
                  then c <- getitem p 0 ;; Return (Ascii.eqb c "0")
                  else Return false) ;;
      if (leading : bool)
      then Raise (InvalidSemanticVersion
                    "pre-release dot separated identifiers must not include leading zeros")
      else check_parts rest
  end.

Definition __init__ (version : pyobj) : result SemanticVersion :=
  match version with
  | PyStr s =>
      match fullmatch SEMVAR s with
      | None =>
          Raise (InvalidSemanticVersion
                   "version string does not contain a valid sematic version")
      | Some m =>
          let results := groupdict [] m in
          major <- int (results "major"%string) ;;
          minor <- int (results "minor"%string) ;;
          patch <- int (results "patch"%string) ;;
          let self := {| _major := major; _minor := minor; _patch := patch;
                         _preRelease := results "pre_release"%string;
                         _build := results "build"%string |} in
          _ <- check_parts (split "." (_preRelease self)) ;;
          Return self
      end
  | _ => Raise (TypeError "version must be a str type")
  end.

Definition __str__ (self : SemanticVersion) : str :=
  let rtn := format_int (_major self) ++ lit "." ++ format_int (_minor self)
             ++ lit "." ++ format_int (_patch self) in
  let rtn := match _preRelease self with
             | [] => rtn
             | _ :: _ => rtn ++ lit "-" ++ _preRelease self
             end in
  let rtn := match _build self with
             | [] => rtn
             | _ :: _ => rtn ++ lit "+" ++ _build self
             end in
  rtn.

(** The quotation mark: character 34. *)
Definition dquote : ascii := "034"%char.

(** [__repr__], on an instance of the class itself, whose
    [__class__.__name__] is ['SemanticVersion']. *)
Definition __repr__ (self : SemanticVersion) : str :=
  lit "SemanticVersion" ++ lit "(" ++ [dquote] ++ __str__ self ++ [dquote]
  ++ lit ")".

(** The read-only properties. *)
Definition version (self : SemanticVersion) : str :=
  format_int (_major self) ++ lit "." ++ format_int (_minor self)
  ++ lit "." ++ format_int (_patch self).

Definition major (self : SemanticVersion) : Z := _major self.

Definition minor (self : SemanticVersion) : Z := _minor self.

Definition patch (self : SemanticVersion) : Z := _patch self.

Definition preRelease (self : SemanticVersion) : str := _preRelease self.

Definition buildMetadata (self : SemanticVersion) : str := _build self.

(** What a comparison method returns: a boolean or [NotImplemented]. *)
Inductive answer : Type :=
| Answer (b : bool)
| NotImplemented.

Definition __eq__ (self : SemanticVersion) (other : pyobj) : answer :=
  match other with
  | PySemVer o =>
      Answer ((_major self =? _major o)%Z && (_minor self =? _minor o)%Z
              && (_patch self =? _patch o)%Z
              && str_eqb (_preRelease self) (_preRelease o))
  | _ => NotImplemented
  end.

(** The branch for a [SemanticVersion] is [pass]: both fall through to the
    closing [return NotImplemented]. *)
Definition __lt__ (self : SemanticVersion) (other : pyobj) : answer :=
  match other with
  | PySemVer _ => NotImplemented
  | _ => NotImplemented
  end.

(** A [dict] with string keys, in the order the keys were inserted. *)
Definition dict : Type := list (string * pyobj).

Definition toDict (self : SemanticVersion) : dict :=
  [("major"%string, PyInt (_major self));
   ("minor"%string, PyInt (_minor self));
   ("patch"%string, PyInt (_patch self));
   ("pre_release"%string, PyStr (_preRelease self));
   ("build_metadata"%string, PyStr (_build self))].

(** [d.get(key)]: the value under [key], [None] when the key is missing. *)
Fixpoint dict_get (key : string) (d : dict) : option pyobj :=
  match d with
  | [] => None
  | (k, x) :: d' => if String.eqb k key then Some x else dict_get key d'
  end.

(** *** The methods [functools.total_ordering] adds

    The class defines [__eq__] and [__lt__]; the decorator fills in
    [__gt__], [__le__] and [__ge__] from [__lt__], and [__ne__] is the one
    every object inherits, the negation of [__eq__]. *)

Definition __ne__ (self : SemanticVersion) (other : pyobj) : answer :=
  match __eq__ self other with
  | Answer b => Answer (negb b)
  | NotImplemented => NotImplemented
  end.

(** *** The comparison operators

    [a op b] calls the method of [a]; when that returns [NotImplemented]
    it calls the reflected method of [b]; when that does too, [==] and
    [!=] fall back on the identity of the two objects and the order
    operators raise [TypeError].  The builtin types know nothing of the
    class: their methods return [NotImplemented] on a [SemanticVersion],
    and an object of one of them is never the same object as a
    [SemanticVersion]. *)

Definition reflected (method : SemanticVersion -> pyobj -> answer)
    (b : pyobj) (a : SemanticVersion) : answer :=
  match b with
  | PySemVer v => method v (PySemVer a)
  | _ => NotImplemented
  end.

Definition eq_op (a : SemanticVersion) (b : pyobj) : bool :=
  match __eq__ a b with
  | Answer r => r
  | NotImplemented =>
      match reflected __eq__ b a with
      | Answer r => r
      | NotImplemented => false
      end
  end.

Definition ne_op (a : SemanticVersion) (b : pyobj) : bool :=
  match __ne__ a b with
  | Answer r => r
  | NotImplemented =>
      match reflected __ne__ b a with
      | Answer r => r
      | NotImplemented => true
      end
  end.

(** [_gt_from_lt], [_le_from_lt] and [_ge_from_lt] of [functools]. *)
Definition __gt__ (self : SemanticVersion) (other : pyobj) : answer :=
  match __lt__ self other with
  | NotImplemented => NotImplemented
  | Answer op_result => Answer (negb op_result && ne_op self other)
  end.

Definition __le__ (self : SemanticVersion) (other : pyobj) : answer :=
  match __lt__ self other with
  | NotImplemented => NotImplemented
  | Answer op_result => Answer (op_result || eq_op self other)
  end.

Definition __ge__ (self : SemanticVersion) (other : pyobj) : answer :=
  match __lt__ self other with
  | NotImplemented => NotImplemented
  | Answer op_result => Answer (negb op_result)
  end.

Definition type_name (o : pyobj) : string :=
  match o with
  | PyNone => "NoneType"
  | PyBool _ => "bool"
  | PyInt _ => "int"
  | PyStr _ => "str"
  | PySemVer _ => "SemanticVersion"
  end.

Definition not_supported (symbol : string) (b : pyobj) : exn :=
  TypeError (symbol ++ " not supported between instances of 'SemanticVersion' and '"
             ++ type_name b ++ "'").

Definition order_op (symbol : string)
    (method mirror : SemanticVersion -> pyobj -> answer)
    (a : SemanticVersion) (b : pyobj) : result bool :=
  match method a b with
  | Answer r => Return r
  | NotImplemented =>
      match reflected mirror b a with
      | Answer r => Return r
      | NotImplemented => Raise (not_supported symbol b)
      end
  end.

Definition lt_op := order_op "'<'" __lt__ __gt__.
Definition le_op := order_op "'<='" __le__ __ge__.
Definition gt_op := order_op "'>'" __gt__ __lt__.
Definition ge_op := order_op "'>='" __ge__ __le__.


(** ** Vocabulary of the statements *)

(** [SemanticVersion(s)] for a string literal [s]. *)
Definition parse (s : string) : result SemanticVersion :=
  __init__ (PyStr (lit s)).

Definition version_of (major minor patch : Z) (pre build : string)
  : SemanticVersion :=
  {| _major := major; _minor := minor; _patch := patch;
     _preRelease := lit pre; _build := lit build |}.

(** [isinstance(o, SemanticVersion)] *)
Definition isinstance_SemanticVersion (o : pyobj) : bool :=
  match o with
  | PySemVer _ => true
  | _ => false
  end.

Definition index_error : exn := IndexError "string index out of range".

(** A match of [\d+], and one of [IDENTIFIER+]. *)
Definition numeral (w : str) : Prop :=
  w <> [] /\ forallb is_digit w = true.

Definition identifier (w : str) : Prop :=
  w <> [] /\ forallb is_identifier_char w = true.

(** [sep.join(ws)] *)
Fixpoint join (sep : ascii) (ws : list str) : str :=
  match ws with
  | [] => []
  | [w] => w
  | w :: ws' => w ++ sep :: join sep ws'
  end.

(** The text of a version with the given numerals and identifiers, an
    empty list standing for a segment that is absent, and the groups a
    match of it binds. *)
Definition core_text (maj min pat : str) : str :=
  maj ++ "."%char :: min ++ "."%char :: pat.

Definition segment (mark : ascii) (ids : list str) : str :=
  match ids with
  | [] => []
  | _ :: _ => mark :: join "." ids
  end.

Definition bound (name : string) (ids : list str) : groups :=
  match ids with
  | [] => []
  | _ :: _ => [(name, join "." ids)]
  end.

Definition semver_text (maj min pat : str) (pre bld : list str) : str :=
  core_text maj min pat ++ segment "-" pre ++ segment "+" bld.

Definition semver_groups (maj min pat : str) (pre bld : list str) : groups :=
  bound "build" bld ++ bound "pre_release" pre ++
  [("version"%string, core_text maj min pat); ("patch"%string, pat);
   ("minor"%string, min); ("major"%string, maj)].

Definition semver_shape (s : str) (m : groups) : Prop :=
  exists v maj min pat pre bld,
    (v = [] \/ v = ["V"%char] \/ v = ["v"%char]) /\
    numeral maj /\ numeral min /\ numeral pat /\
    Forall identifier pre /\ Forall identifier bld /\
    s = v ++ semver_text maj min pat pre bld /\
    m = semver_groups maj min pat pre bld.

(** The characters of a dotted sequence of identifiers. *)
Definition dotted_char (c : ascii) : bool :=
  is_identifier_char c || Ascii.eqb c ".".

(** [r] is empty or starts with a character outside [p]. *)
Definition stops (p : ascii -> bool) (r : str) : Prop :=
  match r with
  | [] => True
  | c :: _ => p c = false
  end.

(** A numeral [int] reads: within the limit on digits. *)
Definition short (w : str) : bool :=
  Nat.leb (length w) int_max_str_digits.

(** The three numerals of a match are all within the limit. *)
Definition numerals_short (m : groups) : bool :=
  short (groupdict [] m "major") && short (groupdict [] m "minor")
  && short (groupdict [] m "patch").

(** The value [int] gives a numeral. *)
Definition numeral_value (w : str) : Z :=
  fold_left (fun acc c => 10 * acc + digit_value c)%Z w 0%Z.

(** The test of the loop of the constructor, on one part of the
    pre-release: the part is not ["0"] and starts with ['0']. *)
Definition leading_zero (p : str) : bool :=
  negb (str_eqb p (lit "0")) &&
  match p with
  | c :: _ => Ascii.eqb c "0"
  | [] => false
  end.

(** The test the rule of the specification words: the part is made of
    digits only, is longer than one character and starts with ['0']. *)
Definition numeric_leading_zero (p : str) : bool :=
  forallb is_digit p && Nat.ltb 1 (length p) &&
  match p with
  | c :: _ => Ascii.eqb c "0"
  | [] => false
  end.

Definition leading_zero_message : string :=
  "pre-release dot separated identifiers must not include leading zeros".

Definition grammar_message : string :=
  "version string does not contain a valid sematic version".

(** The characters a string [SEMVAR] matches is made of: letters, digits,
    ['-'], ['.'] and ['+']. *)
Definition version_char (c : ascii) : bool :=
  is_identifier_char c || Ascii.eqb c "." || Ascii.eqb c "+".

(** The run of digits a string starts with. *)
Fixpoint leading_digits (s : str) : str :=
  match s with
  | c :: s' => if is_digit c then c :: leading_digits s' else []
  | [] => []
  end.

(** The text between the first quotation mark of [r] and the next one. *)
Fixpoint until_quote (r : str) : str :=
  match r with
  | [] => []
  | c :: r' => if Ascii.eqb c dquote then [] else c :: until_quote r'
  end.

Fixpoint quoted (r : str) : str :=
  match r with
  | [] => []
  | c :: r' => if Ascii.eqb c dquote then until_quote r' else quoted r'
  end.

(** * Properties *)

(** ** The matcher and the relation agree *)

Lemma flat_map_nil_fun {A B : Type} (f : A -> list B) (l : list A) :
  (forall a, In a l -> f a = []) -> flat_map f l = [].
Proof.
  induction l as [|a l IH]; simpl; intros H; [reflexivity|].
  rewrite (H a (or_introl eq_refl)), IH; auto.
Qed.

Lemma iterate_sound (r : regex) :
  (forall s g c, In c (run r s g) -> matches r s g (fst c) (snd c)) ->
  forall fuel s g c,
    In c (iterate (run r) fuel s g) -> matches (Star r) s g (fst c) (snd c).
Proof.
  intros Hr fuel; induction fuel as [|fuel IH]; simpl; intros s g c Hin.
  - destruct Hin as [<-|[]]. apply m_star_done.
  - apply in_app_or in Hin. destruct Hin as [Hin|[<-|[]]].
    + apply in_flat_map in Hin. destruct Hin as [c1 [H1 H2]].
      destruct (Nat.ltb_spec (length (fst c1)) (length s)) as [Hlt|]; [|contradiction].
      eapply m_star_more; eauto.
    + apply m_star_done.
Qed.

Lemma run_sound r : forall s g c,
  In c (run r s g) -> matches r s g (fst c) (snd c).
Proof.
  induction r as [p|r1 IH1 r2 IH2|r IH|r IH|name r IH|]; simpl; intros s g c Hin.
  - destruct s as [|a s]; [contradiction|].
    destruct (p a) eqn:Hp; [|contradiction].
    destruct Hin as [<-|[]]. now apply m_class.
  - apply in_flat_map in Hin. destruct Hin as [c1 [H1 H2]].
    eapply m_seq; eauto.
  - apply in_app_or in Hin. destruct Hin as [Hin|[<-|[]]].
    + apply m_opt_some; auto.
    + apply m_opt_none.
  - eapply iterate_sound; eauto.
  - apply in_map_iff in Hin. destruct Hin as [c1 [<- H1]]. simpl.
    apply m_group; auto.
  - destruct s as [|a [|b s]]; try contradiction.
    + destruct Hin as [<-|[]]. apply m_dollar_end.
    + destruct (Ascii.eqb_spec a "010"); [|contradiction].
      destruct Hin as [<-|[]]. subst a. apply m_dollar_newline.
Qed.

(** Fuel beyond the length of the input changes nothing. *)
Lemma iterate_fuel_S step : forall n s g,
  length s <= n -> iterate step (S n) s g = iterate step n s g.
Proof.
  induction n as [|n IH]; intros s g Hle.
  - simpl. rewrite flat_map_nil_fun; [reflexivity|].
    intros c _. destruct (Nat.ltb_spec (length (fst c)) (length s)); [lia|reflexivity].
  - change (iterate step (S (S n)) s g)
      with (flat_map (fun c : config =>
                        if Nat.ltb (length (fst c)) (length s)
                        then iterate step (S n) (fst c) (snd c) else [])
                     (step s g) ++ [(s, g)]).
    change (iterate step (S n) s g)
      with (flat_map (fun c : config =>
                        if Nat.ltb (length (fst c)) (length s)
                        then iterate step n (fst c) (snd c) else [])
                     (step s g) ++ [(s, g)]).
    f_equal. apply flat_map_ext. intros c.
    destruct (Nat.ltb_spec (length (fst c)) (length s)); [|reflexivity].
    apply IH. lia.
Qed.

Lemma iterate_fuel step s g : forall n,
  length s <= n -> iterate step n s g = iterate step (length s) s g.
Proof.
  induction n as [|n IH]; intros Hle.
  - replace (length s) with 0 by lia. reflexivity.
  - destruct (Nat.eq_dec (length s) (S n)) as [->|Hne]; [reflexivity|].
    rewrite iterate_fuel_S by lia. apply IH. lia.
Qed.

Lemma run_complete r s g s' g' :
  matches r s g s' g' -> In (s', g') (run r s g).
Proof.
  induction 1; simpl.
  - rewrite H. now left.
  - apply in_flat_map. exists (s1, g1). auto.
  - apply in_or_app. now left.
  - apply in_or_app. right. now left.
  - destruct (length s) as [|n] eqn:Hlen; [lia|]. simpl.
    apply in_or_app. left. apply in_flat_map. exists (s1, g1). split; [assumption|].
    simpl. destruct (Nat.ltb_spec (length s1) (length s)) as [_|]; [|lia].
    simpl in IHmatches2. rewrite (iterate_fuel _ s1 g1 n) by lia. assumption.
  - destruct (length s); simpl; [now left|]. apply in_or_app. right. now left.
  - apply in_map_iff. exists (s', g'). auto.
  - now left.
  - now left.
Qed.

(** What a pattern consumes is a prefix of the input. *)
Lemma matches_prefix r s g s' g' :
  matches r s g s' g' -> exists w, s = w ++ s'.
Proof.
  induction 1.
  - now exists [c].
  - destruct IHmatches1 as [w1 ->]. destruct IHmatches2 as [w2 ->].
    exists (w1 ++ w2). now rewrite app_assoc.
  - assumption.
  - now exists [].
  - destruct IHmatches1 as [w1 ->]. destruct IHmatches2 as [w2 ->].
    exists (w1 ++ w2). now rewrite app_assoc.
  - now exists [].
  - assumption.
  - now exists [].
  - now exists [].
Qed.

(** ** The shape of a match of [SEMVAR] *)

Lemma firstn_consumed (w s' : str) :
  firstn (length (w ++ s') - length s') (w ++ s') = w.
Proof.
  rewrite length_app, Nat.add_sub.
  rewrite firstn_app, Nat.sub_diag, firstn_all. simpl. apply app_nil_r.
Qed.

Lemma class_inv p s g s' g' :
  matches (Class p) s g s' g' -> exists c, s = c :: s' /\ p c = true /\ g' = g.
Proof. intros H. inversion H; subst. eauto. Qed.

Lemma seq_inv r1 r2 s g s2 g2 :
  matches (r1 >> r2) s g s2 g2 ->
  exists s1 g1, matches r1 s g s1 g1 /\ matches r2 s1 g1 s2 g2.
Proof. intros H. inversion H; subst. eauto. Qed.

Lemma opt_inv r s g s' g' :
  matches (Opt r) s g s' g' -> matches r s g s' g' \/ (s' = s /\ g' = g).
Proof. intros H. inversion H; subst; auto. Qed.

Lemma group_inv name r s g s' g2 :
  matches (Group name r) s g s' g2 ->
  exists w g1, matches r s g s' g1 /\ s = w ++ s' /\ g2 = set_group name w g1.
Proof.
  intros H. inversion H as [| | | | | |n r0 s0 g0 s0' g1 Hr| |]; subst.
  destruct (matches_prefix _ _ _ _ _ Hr) as [w ->].
  exists w, g1. rewrite firstn_consumed. auto.
Qed.

Lemma star_class_inv p s g s' g' :
  matches (Star (Class p)) s g s' g' ->
  g' = g /\ exists w, forallb p w = true /\ s = w ++ s'.
Proof.
  intros H. remember (Star (Class p)) as r eqn:Hr.
  induction H as [| | | |r0 s g s1 g1 s2 g2 H1 _ Hlt H2 IH|r0 s g| | |];
    inversion Hr; subst.
  - apply class_inv in H1. destruct H1 as [c [-> [Hc ->]]].
    destruct (IH eq_refl) as [-> [w [Hw ->]]].
    split; [reflexivity|]. exists (c :: w). simpl. now rewrite Hc, Hw.
  - split; [reflexivity|]. now exists [].
Qed.

Lemma plus_class_inv p s g s' g' :
  matches (Plus (Class p)) s g s' g' ->
  g' = g /\ exists w, w <> [] /\ forallb p w = true /\ s = w ++ s'.
Proof.
  intros H. apply seq_inv in H. destruct H as [s1 [g1 [H1 H2]]].
  apply class_inv in H1. destruct H1 as [c [-> [Hc ->]]].
  apply star_class_inv in H2. destruct H2 as [-> [w [Hw ->]]].
  split; [reflexivity|]. exists (c :: w). simpl. rewrite Hc, Hw.
  repeat split. discriminate.
Qed.

Lemma chr_inv c s g s' g' :
  matches (chr c) s g s' g' -> s = c :: s' /\ g' = g.
Proof.
  intros H. apply class_inv in H. destruct H as [a [-> [Ha ->]]].
  apply Ascii.eqb_eq in Ha. now subst.
Qed.

Lemma dollar_inv s g g' :
  matches Dollar s g [] g' -> s = [] /\ g' = g.
Proof. intros H. inversion H; subst. auto. Qed.

Lemma dotsep_tail_inv s g s' g' :
  matches (Star (Group None (chr "." >> Plus IDENTIFIER))) s g s' g' ->
  g' = g /\ exists ids, Forall identifier ids /\
                        s = concat (map (cons "."%char) ids) ++ s'.
Proof.
  intros H.
  remember (Star (Group None (chr "." >> Plus IDENTIFIER))) as r eqn:Hr.
  induction H as [| | | |r0 s g s1 g1 s2 g2 H1 _ Hlt H2 IH|r0 s g| | |];
    inversion Hr; subst.
  - destruct (IH eq_refl) as [-> [ids [Hids ->]]].
    apply group_inv in H1. destruct H1 as [w [g0 [H1 [_ ->]]]]. simpl.
    apply seq_inv in H1. destruct H1 as [s3 [g3 [Hdot Hid]]].
    apply chr_inv in Hdot. destruct Hdot as [-> ->].
    apply plus_class_inv in Hid. destruct Hid as [-> [id [Hne [Hid ->]]]].
    split; [reflexivity|]. exists (id :: ids). split.
    + constructor; [split|]; assumption.
    + simpl. now rewrite <- app_assoc.
  - split; [reflexivity|]. now exists [].
Qed.

Lemma join_cons (id : str) (ids : list str) :
  join "." (id :: ids) = id ++ concat (map (cons "."%char) ids).
Proof.
  revert id. induction ids as [|id' ids IH]; intros id.
  - simpl. now rewrite app_nil_r.
  - change (join "." (id :: id' :: ids)) with (id ++ "."%char :: join "." (id' :: ids)).
    rewrite IH. reflexivity.
Qed.

Lemma DOTSEP_ID_inv s g s' g' :
  matches DOTSEP_ID s g s' g' ->
  g' = g /\ exists id ids, Forall identifier (id :: ids) /\
                           s = join "." (id :: ids) ++ s'.
Proof.
  intros H. apply seq_inv in H. destruct H as [s1 [g1 [H1 H2]]].
  apply plus_class_inv in H1. destruct H1 as [-> [id [Hne [Hid ->]]]].
  apply dotsep_tail_inv in H2. destruct H2 as [-> [ids [Hids ->]]].
  split; [reflexivity|]. exists id, ids. split.
  - constructor; [split|]; assumption.
  - rewrite join_cons. now rewrite <- app_assoc.
Qed.

Lemma named_DOTSEP_ID_inv name s g s' g' :
  matches (Group (Some name) DOTSEP_ID) s g s' g' ->
  exists id ids, Forall identifier (id :: ids) /\
                 s = join "." (id :: ids) ++ s' /\
                 g' = (name, join "." (id :: ids)) :: g.
Proof.
  intros H. apply group_inv in H. destruct H as [w [g1 [H [Hs ->]]]].
  apply DOTSEP_ID_inv in H. destruct H as [-> [id [ids [Hids Hs']]]].
  exists id, ids. rewrite Hs' in Hs. apply app_inv_tail in Hs. subst w. auto.
Qed.

Lemma named_numeral_inv name s g s' g' :
  matches (Group (Some name) (Plus (Class is_digit))) s g s' g' ->
  exists w, numeral w /\ s = w ++ s' /\ g' = (name, w) :: g.
Proof.
  intros H. apply group_inv in H. destruct H as [w [g1 [H [Hs ->]]]].
  apply plus_class_inv in H. destruct H as [-> [w' [Hne [Hw Hs']]]].
  rewrite Hs' in Hs. apply app_inv_tail in Hs. subst w'.
  exists w. repeat split; auto.
Qed.

Lemma VERSION_inv s g s' g' :
  matches VERSION s g s' g' ->
  exists maj min pat,
    numeral maj /\ numeral min /\ numeral pat /\
    s = core_text maj min pat ++ s' /\
    g' = ("patch"%string, pat) :: ("minor"%string, min) :: ("major"%string, maj) :: g.
Proof.
  intros H. unfold VERSION in H.
  apply seq_inv in H. destruct H as [s1 [g1 [Hmaj H]]].
  apply seq_inv in H. destruct H as [s2 [g2 [Hd1 H]]].
  apply seq_inv in H. destruct H as [s3 [g3 [Hmin H]]].
  apply seq_inv in H. destruct H as [s4 [g4 [Hd2 Hpat]]].
  apply named_numeral_inv in Hmaj. destruct Hmaj as [maj [Hmaj [-> ->]]].
  apply chr_inv in Hd1. destruct Hd1 as [-> ->].
  apply named_numeral_inv in Hmin. destruct Hmin as [min [Hmin [-> ->]]].
  apply chr_inv in Hd2. destruct Hd2 as [-> ->].
  apply named_numeral_inv in Hpat. destruct Hpat as [pat [Hpat [-> ->]]].
  exists maj, min, pat. repeat split; try apply Hmaj; try apply Hmin; try apply Hpat.
  unfold core_text. now rewrite <- !app_assoc, <- !app_comm_cons, <- app_assoc.
Qed.

Lemma segment_inv mark name s g s' g' :
  matches (Opt (Group None (chr mark >> Group (Some name) DOTSEP_ID))) s g s' g' ->
  exists ids, Forall identifier ids /\
              s = match ids with [] => [] | _ :: _ => mark :: join "." ids end ++ s' /\
              g' = bound name ids ++ g.
Proof.
  intros H. apply opt_inv in H. destruct H as [H|[-> ->]].
  - apply group_inv in H. destruct H as [w [g1 [H [_ ->]]]]. simpl.
    apply seq_inv in H. destruct H as [s1 [g2 [Hmark H]]].
    apply chr_inv in Hmark. destruct Hmark as [-> ->].
    apply named_DOTSEP_ID_inv in H. destruct H as [id [ids [Hids [-> ->]]]].
    exists (id :: ids). auto.
  - exists []. auto.
Qed.

Lemma fullmatch_matches r s m :
  fullmatch r s = Some m -> matches r s [] [] m.
Proof.
  unfold fullmatch. intros H.
  destruct (find _ (run r s [])) as [c|] eqn:Hfind; [|discriminate].
  injection H as <-. apply find_some in Hfind. destruct Hfind as [Hin Hnil].
  apply run_sound in Hin. destruct (fst c); [assumption|discriminate].
Qed.

Lemma SEMVAR_inv s m : matches SEMVAR s [] [] m -> semver_shape s m.
Proof.
  intros H. unfold SEMVAR in H.
  apply seq_inv in H. destruct H as [s1 [g1 [Hv H]]].
  apply seq_inv in H. destruct H as [s2 [g2 [Hcore H]]].
  apply seq_inv in H. destruct H as [s3 [g3 [Hpre H]]].
  apply seq_inv in H. destruct H as [s4 [g4 [Hbld Hend]]].
  apply dollar_inv in Hend. destruct Hend as [-> ->].
  apply (segment_inv "+" "build") in Hbld. destruct Hbld as [bld [Hbld [-> ->]]].
  apply (segment_inv "-" "pre_release") in Hpre. destruct Hpre as [pre [Hpre [-> ->]]].
  apply group_inv in Hcore. destruct Hcore as [w [g0 [Hcore [Hw ->]]]].
  apply VERSION_inv in Hcore.
  destruct Hcore as [maj [min [pat [Hmaj [Hmin [Hpat [Hs ->]]]]]]].
  rewrite Hs in Hw. apply app_inv_tail in Hw. subst w.
  assert (Hv' : exists v, (v = [] \/ v = ["V"%char] \/ v = ["v"%char]) /\
                          s = v ++ s1 /\ g1 = []).
  { apply opt_inv in Hv. destruct Hv as [Hv|[-> ->]].
    - apply class_inv in Hv. destruct Hv as [c [-> [Hc ->]]].
      exists [c]. repeat split.
      apply orb_true_iff in Hc. destruct Hc as [Hc|Hc];
        apply Ascii.eqb_eq in Hc; subst; auto.
    - exists []. auto. }
  destruct Hv' as [v [Hv' [-> ->]]].
  exists v, maj, min, pat, pre, bld. repeat split; try assumption;
    try apply Hmaj; try apply Hmin; try apply Hpat.
  rewrite Hs. unfold semver_text, segment. now rewrite !app_nil_r.
Qed.

Lemma SEMVAR_match_shape s m : fullmatch SEMVAR s = Some m -> semver_shape s m.
Proof. intros H. apply SEMVAR_inv, fullmatch_matches, H. Qed.

(** Name the numerals and identifiers of a match [Hm], and rewrite its
    groups to those of the shape. *)
Ltac shape_of Hm :=
  let v := fresh "v" in
  destruct (SEMVAR_match_shape _ _ Hm)
    as [v [maj [min [pat [pre [bld [_ [Hmaj [Hmin [Hpat [Hids [Hbld [_ ->]]]]]]]]]]]]].

(** ** Every string of the shape is matched *)

Lemma star_class_intro p w s' g :
  forallb p w = true -> matches (Star (Class p)) (w ++ s') g s' g.
Proof.
  induction w as [|c w IH]; simpl; intros H; [apply m_star_done|].
  apply andb_true_iff in H. destruct H as [Hc Hw].
  apply m_star_more with (s1 := w ++ s') (g1 := g); auto.
  now apply m_class.
Qed.

Lemma plus_class_intro p w s' g :
  w <> [] -> forallb p w = true -> matches (Plus (Class p)) (w ++ s') g s' g.
Proof.
  destruct w as [|c w]; [contradiction|]. simpl. intros _ H.
  apply andb_true_iff in H. destruct H as [Hc Hw].
  apply m_seq with (s1 := w ++ s') (g1 := g).
  - now apply m_class.
  - now apply star_class_intro.
Qed.

Lemma chr_intro c s g : matches (chr c) (c :: s) g s g.
Proof. apply m_class. apply Ascii.eqb_refl. Qed.

Lemma group_intro name r w s' g g1 :
  matches r (w ++ s') g s' g1 ->
  matches (Group name r) (w ++ s') g s' (set_group name w g1).
Proof.
  intros H. pose proof (m_group name r (w ++ s') g s' g1 H) as M.
  now rewrite firstn_consumed in M.
Qed.

Lemma dotsep_tail_intro ids s' g :
  Forall identifier ids ->
  matches (Star (Group None (chr "." >> Plus IDENTIFIER)))
          (concat (map (cons "."%char) ids) ++ s') g s' g.
Proof.
  induction 1 as [|id ids [Hne Hid] _ IH]; simpl; [apply m_star_done|].
  rewrite <- app_assoc.
  apply m_star_more with (s1 := concat (map (cons "."%char) ids) ++ s') (g1 := g).
  - apply (group_intro None _ ("."%char :: id) _ g g).
    apply m_seq with (s1 := id ++ concat (map (cons "."%char) ids) ++ s') (g1 := g).
    + apply chr_intro.
    + now apply plus_class_intro.
  - simpl. rewrite !length_app. lia.
  - exact IH.
Qed.

Lemma DOTSEP_ID_intro ids s' g :
  Forall identifier ids -> ids <> [] ->
  matches DOTSEP_ID (join "." ids ++ s') g s' g.
Proof.
  intros H Hne. destruct H as [|id ids [Hid1 Hid2] Hids]; [contradiction|].
  rewrite join_cons, <- app_assoc.
  apply m_seq with (s1 := concat (map (cons "."%char) ids) ++ s') (g1 := g).
  - now apply plus_class_intro.
  - now apply dotsep_tail_intro.
Qed.

Lemma segment_intro mark name ids s' g :
  Forall identifier ids ->
  matches (Opt (Group None (chr mark >> Group (Some name) DOTSEP_ID)))
          (segment mark ids ++ s') g s' (bound name ids ++ g).
Proof.
  intros H. destruct ids as [|id ids]; [apply m_opt_none|].
  apply m_opt_some. cbn [segment bound app].
  apply (group_intro None _ (mark :: join "." (id :: ids)) s' g
           ((name, join "." (id :: ids)) :: g)).
  apply m_seq with (s1 := join "." (id :: ids) ++ s') (g1 := g).
  - apply chr_intro.
  - apply (group_intro (Some name)). apply DOTSEP_ID_intro; [assumption|discriminate].
Qed.

Lemma named_numeral_intro name w s' g :
  numeral w ->
  matches (Group (Some name) (Plus (Class is_digit))) (w ++ s') g s' ((name, w) :: g).
Proof.
  intros [Hne Hd]. apply (group_intro (Some name)). now apply plus_class_intro.
Qed.

Lemma VERSION_intro maj min pat s' g :
  numeral maj -> numeral min -> numeral pat ->
  matches VERSION (core_text maj min pat ++ s') g s'
          (("patch"%string, pat) :: ("minor"%string, min) :: ("major"%string, maj) :: g).
Proof.
  intros Hmaj Hmin Hpat. unfold VERSION, core_text.
  rewrite <- !app_assoc, <- !app_comm_cons, <- app_assoc, <- app_comm_cons.
  eapply m_seq; [now apply named_numeral_intro|].
  eapply m_seq; [apply chr_intro|].
  eapply m_seq; [now apply named_numeral_intro|].
  eapply m_seq; [apply chr_intro|].
  now apply named_numeral_intro.
Qed.

Lemma SEMVAR_intro s m : semver_shape s m -> matches SEMVAR s [] [] m.
Proof.
  intros [v [maj [min [pat [pre [bld [Hv [Hmaj [Hmin [Hpat [Hpre [Hbld [-> ->]]]]]]]]]]]]].
  unfold SEMVAR, semver_text, semver_groups.
  apply m_seq with (s1 := core_text maj min pat ++ segment "-" pre ++ segment "+" bld)
                   (g1 := []).
  { destruct Hv as [ -> | [ -> | -> ] ]; [apply m_opt_none | | ];
      apply m_opt_some; now apply m_class. }
  eapply m_seq.
  { apply (group_intro (Some "version"%string)). now apply VERSION_intro. }
  eapply m_seq; [now apply segment_intro|].
  rewrite <- (app_nil_r (segment "+" bld)).
  eapply m_seq; [now apply segment_intro|].
  apply m_dollar_end.
Qed.

(** ** A string has one shape at most *)

Lemma prefix_unique p w w' r r' :
  forallb p w = true -> forallb p w' = true -> stops p r -> stops p r' ->
  w ++ r = w' ++ r' -> w = w' /\ r = r'.
Proof.
  revert w'. induction w as [|c w IH]; intros [|c' w']; simpl;
    intros Hw Hw' Hr Hr' E.
  - auto.
  - subst r. simpl in Hr. apply andb_true_iff in Hw'. destruct Hw' as [Hc _].
    congruence.
  - subst r'. simpl in Hr'. apply andb_true_iff in Hw. destruct Hw as [Hc _].
    congruence.
  - apply andb_true_iff in Hw, Hw'. destruct Hw as [_ Hw]. destruct Hw' as [_ Hw'].
    injection E as -> E. destruct (IH w' Hw Hw' Hr Hr' E) as [-> ->]. auto.
Qed.

Lemma identifier_char_not_dot c :
  is_identifier_char c = true -> Ascii.eqb c "." = false.
Proof.
  intros H. destruct (Ascii.eqb_spec c "."); [subst; discriminate|reflexivity].
Qed.

Lemma split_no_dot w :
  forallb is_identifier_char w = true -> split "." w = [w].
Proof.
  induction w as [|c w IH]; simpl; intros H; [reflexivity|].
  apply andb_true_iff in H. destruct H as [Hc Hw].
  now rewrite (identifier_char_not_dot c Hc), (IH Hw).
Qed.

Lemma split_app_dot w rest :
  forallb is_identifier_char w = true ->
  split "." (w ++ "."%char :: rest) = w :: split "." rest.
Proof.
  induction w as [|c w IH]; simpl; intros H; [reflexivity|].
  apply andb_true_iff in H. destruct H as [Hc Hw].
  now rewrite (identifier_char_not_dot c Hc), (IH Hw).
Qed.

(** Splitting undoes joining. *)
Lemma split_join ids :
  Forall identifier ids -> ids <> [] -> split "." (join "." ids) = ids.
Proof.
  induction 1 as [|id ids [_ Hid] Hids IH]; intros Hne; [contradiction|].
  destruct ids as [|id' ids].
  - simpl. now apply split_no_dot.
  - change (join "." (id :: id' :: ids)) with (id ++ "."%char :: join "." (id' :: ids)).
    rewrite split_app_dot by assumption. f_equal. apply IH. discriminate.
Qed.

Lemma join_inj ids ids' :
  Forall identifier ids -> Forall identifier ids' -> ids <> [] -> ids' <> [] ->
  join "." ids = join "." ids' -> ids = ids'.
Proof.
  intros H H' Hne Hne' E.
  rewrite <- (split_join ids H Hne), <- (split_join ids' H' Hne'). now rewrite E.
Qed.

Lemma join_dotted ids :
  Forall identifier ids -> forallb dotted_char (join "." ids) = true.
Proof.
  induction 1 as [|id ids [_ Hid] _ IH]; [reflexivity|].
  assert (Hd : forallb dotted_char id = true).
  { apply forallb_forall. intros c Hc. unfold dotted_char.
    rewrite forallb_forall in Hid. now rewrite (Hid c Hc). }
  destruct ids as [|id' ids]; [exact Hd|].
  change (join "." (id :: id' :: ids)) with (id ++ "."%char :: join "." (id' :: ids)).
  rewrite forallb_app, Hd. simpl. exact IH.
Qed.

Lemma segment_build_unique bld bld' :
  Forall identifier bld -> Forall identifier bld' ->
  segment "+" bld = segment "+" bld' -> bld = bld'.
Proof.
  intros H H' E. destruct bld as [|b bld], bld' as [|b' bld'];
    try reflexivity; try discriminate.
  cbn [segment] in E. injection E as E.
  apply join_inj; (assumption || discriminate).
Qed.

Lemma segments_unique pre bld pre' bld' :
  Forall identifier pre -> Forall identifier bld ->
  Forall identifier pre' -> Forall identifier bld' ->
  segment "-" pre ++ segment "+" bld = segment "-" pre' ++ segment "+" bld' ->
  pre = pre' /\ bld = bld'.
Proof.
  intros Hpre Hbld Hpre' Hbld' E.
  destruct pre as [|p pre], pre' as [|p' pre'].
  - split; [reflexivity|]. now apply segment_build_unique.
  - destruct bld; discriminate.
  - destruct bld'; discriminate.
  - assert (E' : join "." (p :: pre) ++ segment "+" bld =
                 join "." (p' :: pre') ++ segment "+" bld').
    { cbn [segment] in E. rewrite <- !app_comm_cons in E. now injection E. }
    apply (prefix_unique dotted_char) in E'.
    + destruct E' as [E1 E2]. split.
      * apply join_inj; (assumption || discriminate).
      * now apply segment_build_unique.
    + now apply join_dotted.
    + now apply join_dotted.
    + destruct bld; simpl; auto.
    + destruct bld'; simpl; auto.
Qed.

Lemma digit_not_v c :
  is_digit c = true -> Ascii.eqb c "V" || Ascii.eqb c "v" = false.
Proof.
  intros H. destruct (Ascii.eqb_spec c "V"); [subst; discriminate|].
  destruct (Ascii.eqb_spec c "v"); [subst; discriminate|reflexivity].
Qed.

Lemma stops_after_patch pre bld :
  stops is_digit (segment "-" pre ++ segment "+" bld).
Proof. destruct pre, bld; simpl; auto. Qed.

Lemma semver_text_unique v maj min pat pre bld v' maj' min' pat' pre' bld' :
  (v = [] \/ v = ["V"%char] \/ v = ["v"%char]) ->
  (v' = [] \/ v' = ["V"%char] \/ v' = ["v"%char]) ->
  numeral maj -> numeral min -> numeral pat ->
  numeral maj' -> numeral min' -> numeral pat' ->
  Forall identifier pre -> Forall identifier bld ->
  Forall identifier pre' -> Forall identifier bld' ->
  v ++ semver_text maj min pat pre bld = v' ++ semver_text maj' min' pat' pre' bld' ->
  maj = maj' /\ min = min' /\ pat = pat' /\ pre = pre' /\ bld = bld'.
Proof.
  intros Hv Hv' [Hmaj1 Hmaj] [_ Hmin] [_ Hpat] [Hmaj1' Hmaj'] [_ Hmin'] [_ Hpat']
         Hpre Hbld Hpre' Hbld' E.
  unfold semver_text, core_text in E.
  apply (prefix_unique (fun c => Ascii.eqb c "V" || Ascii.eqb c "v")) in E.
  - destruct E as [_ E]. rewrite <- !app_assoc, <- !app_comm_cons in E.
    apply (prefix_unique is_digit) in E; try assumption; try reflexivity.
    destruct E as [-> E]. injection E as E.
    rewrite <- !app_assoc, <- !app_comm_cons in E.
    apply (prefix_unique is_digit) in E; try assumption; try reflexivity.
    destruct E as [-> E]. injection E as E.
    apply (prefix_unique is_digit) in E; try assumption;
      try apply stops_after_patch.
    destruct E as [-> E].
    destruct (segments_unique _ _ _ _ Hpre Hbld Hpre' Hbld' E) as [-> ->]. auto.
  - destruct Hv as [ -> | [ -> | -> ] ]; reflexivity.
  - destruct Hv' as [ -> | [ -> | -> ] ]; reflexivity.
  - destruct maj as [|c maj]; [contradiction|]. simpl in *.
    apply andb_true_iff in Hmaj. destruct Hmaj as [Hc _]. now apply digit_not_v.
  - destruct maj' as [|c maj']; [contradiction|]. simpl in *.
    apply andb_true_iff in Hmaj'. destruct Hmaj' as [Hc _]. now apply digit_not_v.
Qed.

Lemma semver_shape_unique s m m' :
  semver_shape s m -> semver_shape s m' -> m = m'.
Proof.
  intros [v [maj [min [pat [pre [bld [Hv [Hmaj [Hmin [Hpat [Hpre [Hbld [-> ->]]]]]]]]]]]]]
         [v' [maj' [min' [pat' [pre' [bld' [Hv' [Hmaj' [Hmin' [Hpat' [Hpre' [Hbld' [E ->]]]]]]]]]]]]].
  destruct (semver_text_unique _ _ _ _ _ _ _ _ _ _ _ _ Hv Hv' Hmaj Hmin Hpat
              Hmaj' Hmin' Hpat' Hpre Hbld Hpre' Hbld' E) as [-> [-> [-> [-> ->]]]].
  reflexivity.
Qed.

Lemma SEMVAR_match_complete s m :
  semver_shape s m -> fullmatch SEMVAR s = Some m.
Proof.
  intros Hs.
  pose proof (run_complete _ _ _ _ _ (SEMVAR_intro s m Hs)) as Hin.
  unfold fullmatch.
  destruct (find _ (run SEMVAR s [])) as [c|] eqn:Hfind.
  - f_equal. apply (semver_shape_unique s); [|assumption].
    apply SEMVAR_match_shape. unfold fullmatch. now rewrite Hfind.
  - apply (find_none _ _ Hfind) in Hin. discriminate.
Qed.

(** X2.  [SEMVAR.fullmatch] succeeds exactly on the strings of the shape
    the pattern spells: an optional [v] or [V], three numerals separated
    by dots, then optionally ['-'] and identifiers joined by dots, then
    optionally ['+'] and identifiers joined by dots; the groups bound are
    those of the shape, and the [v] is in none of them. *)
Theorem fullmatch_SEMVAR_iff s m :
  fullmatch SEMVAR s = Some m <-> semver_shape s m.
Proof. split; [apply SEMVAR_match_shape|apply SEMVAR_match_complete]. Qed.

(** ** The constructor on a match *)

Lemma int_numeral w :
  numeral w ->
  int w = if short w then Return (numeral_value w)
          else Raise (too_many_digits (length w)).
Proof.
  intros [Hne Hd]. unfold int, short. destruct w as [|c w]; [contradiction|].
  now rewrite Hd.
Qed.

Lemma int_short_numeral w :
  numeral w -> short w = true -> int w = Return (numeral_value w).
Proof. intros Hw Hs. now rewrite (int_numeral w Hw), Hs. Qed.

Lemma lookup_semver_groups maj min pat pre bld :
  let m := semver_groups maj min pat pre bld in
  lookup "major" m = Some maj /\ lookup "minor" m = Some min /\
  lookup "patch" m = Some pat /\
  lookup "pre_release" m = match pre with [] => None | _ :: _ => Some (join "." pre) end /\
  lookup "build" m = match bld with [] => None | _ :: _ => Some (join "." bld) end.
Proof.
  destruct pre, bld; repeat split; reflexivity.
Qed.

Lemma check_parts_nonempty parts :
  Forall (fun p => p <> []) parts ->
  check_parts parts =
  if existsb leading_zero parts
  then Raise (InvalidSemanticVersion leading_zero_message)
  else Return tt.
Proof.
  induction 1 as [|p parts Hp _ IH]; [reflexivity|].
  destruct p as [|c p]; [contradiction|].
  cbn [check_parts existsb]. unfold leading_zero at 1.
  change (lit "0") with ["0"%char].
  destruct (str_eqb (c :: p) ["0"%char]); cbn.
  - apply IH.
  - destruct (Ascii.eqb c "0"); cbn; [reflexivity|apply IH].
Qed.

Lemma identifiers_nonempty ids :
  Forall identifier ids -> Forall (fun p : str => p <> []) ids.
Proof. apply Forall_impl. now intros p [Hne _]. Qed.

(** What the constructor does on a string the pattern matches, by the
    numerals and identifiers of the match: the three numerals are read
    first, each within the limit on digits or not, then the parts of the
    pre-release are tested. *)
Lemma init_on_any_match s maj min pat pre bld :
  fullmatch SEMVAR s = Some (semver_groups maj min pat pre bld) ->
  numeral maj -> numeral min -> numeral pat -> Forall identifier pre ->
  __init__ (PyStr s) =
  if short maj then
    if short min then
      if short pat then
        match pre with
        | [] => Raise index_error
        | _ :: _ =>
            if existsb leading_zero pre
            then Raise (InvalidSemanticVersion leading_zero_message)
            else Return {| _major := numeral_value maj;
                           _minor := numeral_value min;
                           _patch := numeral_value pat;
                           _preRelease := join "." pre;
                           _build := join "." bld |}
        end
      else Raise (too_many_digits (length pat))
    else Raise (too_many_digits (length min))
  else Raise (too_many_digits (length maj)).
Proof.
  intros Hm Hmaj Hmin Hpat Hpre. unfold __init__. rewrite Hm.
  destruct (lookup_semver_groups maj min pat pre bld) as [L1 [L2 [L3 [L4 L5]]]].
  unfold groupdict. rewrite L1, L2, L3, L4, L5.
  rewrite (int_numeral _ Hmaj), (int_numeral _ Hmin), (int_numeral _ Hpat).
  destruct (short maj); [|reflexivity]. cbn [bind].
  destruct (short min); [|reflexivity]. cbn [bind].
  destruct (short pat); [|reflexivity]. cbn [bind _preRelease].
  destruct pre as [|id ids].
  - reflexivity.
  - rewrite split_join by (assumption || discriminate).
    rewrite check_parts_nonempty by now apply identifiers_nonempty.
    destruct (existsb leading_zero (id :: ids)); [reflexivity|].
    cbn [bind]. destruct bld; reflexivity.
Qed.

Lemma init_on_match s maj min pat pre bld :
  fullmatch SEMVAR s = Some (semver_groups maj min pat pre bld) ->
  numeral maj -> numeral min -> numeral pat -> Forall identifier pre ->
  short maj = true -> short min = true -> short pat = true ->
  __init__ (PyStr s) =
  match pre with
  | [] => Raise index_error
  | _ :: _ =>
      if existsb leading_zero pre
      then Raise (InvalidSemanticVersion leading_zero_message)
      else Return {| _major := numeral_value maj; _minor := numeral_value min;
                     _patch := numeral_value pat; _preRelease := join "." pre;
                     _build := join "." bld |}
  end.
Proof.
  intros Hm Hmaj Hmin Hpat Hpre Smaj Smin Spat.
  rewrite (init_on_any_match s maj min pat pre bld Hm Hmaj Hmin Hpat Hpre).
  now rewrite Smaj, Smin, Spat.
Qed.

(** ** The constructor *)

(** A group that took part in a match of [SEMVAR] is not empty: the
    pre-release reads as [''] exactly when the segment is absent. *)
Lemma pre_release_absent_iff s m :
  fullmatch SEMVAR s = Some m ->
  (lookup "pre_release" m = None <-> groupdict [] m "pre_release" = []).
Proof.
  intros Hm. shape_of Hm.
  destruct (lookup_semver_groups maj min pat pre bld) as [_ [_ [_ [L _]]]].
  unfold groupdict. rewrite L. destruct pre as [|id ids]; [tauto|].
  split; [discriminate|]. intros Hnil. exfalso.
  inversion Hids as [|? ? [Hne _] _]; subst.
  rewrite join_cons in Hnil. apply app_eq_nil in Hnil. tauto.
Qed.

Lemma numerals_short_groups maj min pat pre bld :
  numerals_short (semver_groups maj min pat pre bld) =
  short maj && short min && short pat.
Proof.
  destruct (lookup_semver_groups maj min pat pre bld) as [L1 [L2 [L3 _]]].
  unfold numerals_short, groupdict. now rewrite L1, L2, L3.
Qed.

(** With a numeral above the limit [int] raises before the loop is
    reached. *)
Lemma init_long_numeral s m :
  fullmatch SEMVAR s = Some m -> numerals_short m = false ->
  exists n, int_max_str_digits < n /\
            __init__ (PyStr s) = Raise (too_many_digits n).
Proof.
  intros Hm Hlong. shape_of Hm. rewrite numerals_short_groups in Hlong.
  rewrite (init_on_any_match s maj min pat pre bld Hm Hmaj Hmin Hpat Hids).
  unfold short in *.
  destruct (Nat.leb_spec (length maj) int_max_str_digits); [|eauto].
  destruct (Nat.leb_spec (length min) int_max_str_digits); [|eauto].
  destruct (Nat.leb_spec (length pat) int_max_str_digits); [discriminate|eauto].
Qed.

Lemma init_short_match s maj min pat pre bld :
  fullmatch SEMVAR s = Some (semver_groups maj min pat pre bld) ->
  numeral maj -> numeral min -> numeral pat -> Forall identifier pre ->
  numerals_short (semver_groups maj min pat pre bld) = true ->
  __init__ (PyStr s) =
  match pre with
  | [] => Raise index_error
  | _ :: _ =>
      if existsb leading_zero pre
      then Raise (InvalidSemanticVersion leading_zero_message)
      else Return {| _major := numeral_value maj; _minor := numeral_value min;
                     _patch := numeral_value pat; _preRelease := join "." pre;
                     _build := join "." bld |}
  end.
Proof.
  intros Hm Hmaj Hmin Hpat Hpre Hs. rewrite numerals_short_groups in Hs.
  apply andb_true_iff in Hs. destruct Hs as [Hs S3].
  apply andb_true_iff in Hs. destruct Hs as [S1 S2].
  now apply init_on_match.
Qed.

(** C1, as the code has it.  A string that [SEMVAR] matches and that has
    no pre-release segment never yields a value, and what it raises is
    neither [TypeError] nor [InvalidSemanticVersion].  When the three
    numerals are within the limit [int] puts on digits, the group reads as
    [''], [''.split('.')] is [['']], the loop evaluates [p[0]] on the
    empty part and the constructor raises [IndexError]; with a longer
    numeral [int] raises [ValueError] before the loop. *)
Theorem init_without_pre_release (s : str) (m : groups) :
  fullmatch SEMVAR s = Some m ->
  lookup "pre_release" m = None ->
  (groupdict [] m "pre_release" = [] /\
   split "." [] = [[]] /\
   getitem [] 0 = Raise index_error) /\
  (numerals_short m = true -> __init__ (PyStr s) = Raise index_error) /\
  (numerals_short m = false ->
   exists n, int_max_str_digits < n /\
             __init__ (PyStr s) = Raise (too_many_digits n)).
Proof.
  intros Hm Hpre. split; [|split].
  - split; [|split; reflexivity]. now apply (pre_release_absent_iff s m Hm).
  - intros Hshort. shape_of Hm.
    rewrite (init_short_match s maj min pat pre bld Hm Hmaj Hmin Hpat Hids Hshort).
    destruct (lookup_semver_groups maj min pat pre bld) as [_ [_ [_ [L _]]]].
    rewrite L in Hpre. destruct pre; [reflexivity|discriminate].
  - now apply init_long_numeral.
Qed.

Lemma init_without_pre_release_examples :
  parse "1.0.0" = Raise index_error /\
  parse "v1.2.3" = Raise index_error /\
  parse "1.0.0+build1" = Raise index_error.
Proof.
  split; [|split].
  - refine (proj1 (proj2 (init_without_pre_release (lit "1.0.0")
      (semver_groups (lit "1") (lit "0") (lit "0") [] []) _ _)) _);
      vm_compute; reflexivity.
  - refine (proj1 (proj2 (init_without_pre_release (lit "v1.2.3")
      (semver_groups (lit "1") (lit "2") (lit "3") [] []) _ _)) _);
      vm_compute; reflexivity.
  - refine (proj1 (proj2 (init_without_pre_release (lit "1.0.0+build1")
      (semver_groups (lit "1") (lit "0") (lit "0") [] [lit "build1"]) _ _)) _);
      vm_compute; reflexivity.
Defined.

(** C1, as the claim words it, fails on a string whose major number has
    4301 digits: [SEMVAR] matches, there is no pre-release, and the
    constructor raises the [ValueError] of [int], not [IndexError]. *)
Lemma init_without_pre_release_counterexample :
  fullmatch SEMVAR (repeat "1"%char 4301 ++ lit ".0.0") =
    Some (semver_groups (repeat "1"%char 4301) (lit "0") (lit "0") [] []) /\
  lookup "pre_release"
    (semver_groups (repeat "1"%char 4301) (lit "0") (lit "0") [] []) = None /\
  __init__ (PyStr (repeat "1"%char 4301 ++ lit ".0.0")) =
    Raise (too_many_digits 4301) /\
  too_many_digits 4301 <> index_error.
Proof.
  assert (Hmaj : numeral (repeat "1"%char 4301)).
  { split; [discriminate|vm_compute; reflexivity]. }
  assert (H0 : numeral (lit "0")) by (split; [discriminate|reflexivity]).
  assert (Hm : fullmatch SEMVAR (repeat "1"%char 4301 ++ lit ".0.0") =
               Some (semver_groups (repeat "1"%char 4301) (lit "0") (lit "0") [] [])).
  { apply SEMVAR_match_complete.
    exists [], (repeat "1"%char 4301), (lit "0"), (lit "0"), [], [].
    repeat split; auto; try apply Hmaj; try discriminate. }
  split; [exact Hm|]. split; [reflexivity|]. split; [|discriminate].
  rewrite (init_on_any_match _ _ _ _ _ _ Hm Hmaj H0 H0 (Forall_nil _)).
  assert (Hlong : short (repeat "1"%char 4301) = false) by (vm_compute; reflexivity).
  now rewrite Hlong, repeat_length.
Qed.

(** The pre-release decides the outcome on a match whose numerals [int]
    reads: the parts of [preRelease.split('.')] are tested one by one. *)
Lemma init_leading_zero_iff s m :
  fullmatch SEMVAR s = Some m ->
  numerals_short m = true ->
  (__init__ (PyStr s) = Raise (InvalidSemanticVersion leading_zero_message) <->
   existsb leading_zero (split "." (groupdict [] m "pre_release")) = true).
Proof.
  intros Hm Hshort. shape_of Hm.
  rewrite (init_short_match s maj min pat pre bld Hm Hmaj Hmin Hpat Hids Hshort).
  destruct (lookup_semver_groups maj min pat pre bld) as [_ [_ [_ [L _]]]].
  unfold groupdict. rewrite L. destruct pre as [|id ids].
  - simpl. split; discriminate.
  - rewrite split_join by (assumption || discriminate).
    destruct (existsb leading_zero (id :: ids)); split; intros H;
      (reflexivity || discriminate).
Qed.

Lemma init_succeeds_iff s m :
  fullmatch SEMVAR s = Some m ->
  numerals_short m = true ->
  lookup "pre_release" m <> None ->
  existsb leading_zero (split "." (groupdict [] m "pre_release")) = false ->
  exists v, __init__ (PyStr s) = Return v /\
            _preRelease v = groupdict [] m "pre_release" /\
            _build v = groupdict [] m "build".
Proof.
  intros Hm Hshort Hsome Hok. shape_of Hm.
  rewrite (init_short_match s maj min pat pre bld Hm Hmaj Hmin Hpat Hids Hshort).
  destruct (lookup_semver_groups maj min pat pre bld) as [_ [_ [_ [L1 L2]]]].
  unfold groupdict in *. rewrite L1 in Hsome, Hok |- *. rewrite L2.
  destruct pre as [|id ids]; [contradiction|].
  rewrite split_join in Hok by (assumption || discriminate). rewrite Hok.
  eexists. split; [reflexivity|]. simpl. split; [reflexivity|].
  destruct bld; reflexivity.
Qed.

(** C4, as the code has it.  On a string [SEMVAR] matches and whose
    three numerals are within the limit [int] puts on digits, the
    constructor raises [InvalidSemanticVersion] for a leading zero exactly
    when some part of the pre-release, split on ['.'], is not ["0"] and
    starts with ['0'], digits only or not: ["1.0.0-01"] and ["1.0.0-0a"]
    are refused, ["1.0.0-0"] is accepted.  The build metadata is never
    tested: with a pre-release that passes, the value is returned whatever
    the build is.  With a numeral above the limit [int] raises
    [ValueError] before the parts are looked at. *)
Theorem leading_zero_rule :
  (forall s m, fullmatch SEMVAR s = Some m ->
     numerals_short m = true ->
     (__init__ (PyStr s) = Raise (InvalidSemanticVersion leading_zero_message) <->
      existsb leading_zero (split "." (groupdict [] m "pre_release")) = true)) /\
  (forall s m, fullmatch SEMVAR s = Some m ->
     numerals_short m = true ->
     lookup "pre_release" m <> None ->
     existsb leading_zero (split "." (groupdict [] m "pre_release")) = false ->
     exists v, __init__ (PyStr s) = Return v /\
               _build v = groupdict [] m "build") /\
  (forall s m, fullmatch SEMVAR s = Some m ->
     numerals_short m = false ->
     exists n, int_max_str_digits < n /\
               __init__ (PyStr s) = Raise (too_many_digits n)) /\
  parse "1.0.0-01" = Raise (InvalidSemanticVersion leading_zero_message) /\
  parse "1.0.0-0" = Return (version_of 1 0 0 "0" "") /\
  parse "1.0.0-0a" = Raise (InvalidSemanticVersion leading_zero_message) /\
  parse "1.0.0-rc.1+001" = Return (version_of 1 0 0 "rc.1" "001").
Proof.
  split; [exact init_leading_zero_iff|].
  split; [|split; [exact init_long_numeral|]].
  - intros s m Hm Hshort Hsome Hok.
    destruct (init_succeeds_iff s m Hm Hshort Hsome Hok) as [v [Hv [_ Hb]]]. eauto.
  - repeat split; vm_compute; reflexivity.
Qed.

Lemma leading_zero_rule_witness :
  (parse "1.0.0-x.007" = Raise (InvalidSemanticVersion leading_zero_message) <->
   existsb leading_zero (split "." (lit "x.007")) = true) /\
  exists v, parse "1.2.3-beta+007" = Return v /\ _build v = lit "007".
Proof.
  split.
  - refine (proj1 leading_zero_rule (lit "1.0.0-x.007")
      (semver_groups (lit "1") (lit "0") (lit "0") [lit "x"; lit "007"] []) _ _);
      vm_compute; reflexivity.
  - refine (proj1 (proj2 leading_zero_rule) (lit "1.2.3-beta+007")
      (semver_groups (lit "1") (lit "2") (lit "3") [lit "beta"] [lit "007"]) _ _ _ _).
    + vm_compute; reflexivity.
    + vm_compute; reflexivity.
    + vm_compute; discriminate.
    + vm_compute; reflexivity.
Defined.

(** C4, as the claim words it, fails on ["1.0.0-0a"]: [SEMVAR] matches,
    no part of the pre-release is a numeral with a leading zero, and the
    constructor still raises [InvalidSemanticVersion] for a leading zero
    instead of accepting the string. *)
Lemma leading_zero_rule_counterexample :
  fullmatch SEMVAR (lit "1.0.0-0a") <> None /\
  existsb numeric_leading_zero (split "." (lit "0a")) = false /\
  parse "1.0.0-0a" = Raise (InvalidSemanticVersion leading_zero_message).
Proof.
  split; [vm_compute; discriminate|]. split; vm_compute; reflexivity.
Qed.

(** ** Comparison with a value of another type *)

(** C10.  Against a value that is not a [SemanticVersion], [__eq__] and
    [__lt__] both return [NotImplemented], neither a boolean nor an
    exception, and the operators [==] and [!=] then answer "not equal". *)
Theorem foreign_comparison (self : SemanticVersion) (other : pyobj) :
  isinstance_SemanticVersion other = false ->
  __eq__ self other = NotImplemented /\
  __lt__ self other = NotImplemented /\
  eq_op self other = false /\
  ne_op self other = true.
Proof.
  intros H. destruct other; try discriminate; repeat split; reflexivity.
Qed.

Lemma foreign_comparison_witness :
  __eq__ (version_of 1 0 0 "rc.1" "") (PyInt 5) = NotImplemented /\
  __lt__ (version_of 1 0 0 "rc.1" "") (PyInt 5) = NotImplemented /\
  eq_op (version_of 1 0 0 "rc.1" "") (PyInt 5) = false /\
  ne_op (version_of 1 0 0 "rc.1" "") (PyInt 5) = true.
Proof.
  apply (foreign_comparison (version_of 1 0 0 "rc.1" "") (PyInt 5)).
  reflexivity.
Defined.

(** ** The order operators *)

Lemma order_operators_raise (a b : SemanticVersion) :
  lt_op a (PySemVer b) = Raise (not_supported "'<'" (PySemVer b)) /\
  le_op a (PySemVer b) = Raise (not_supported "'<='" (PySemVer b)) /\
  gt_op a (PySemVer b) = Raise (not_supported "'>'" (PySemVer b)) /\
  ge_op a (PySemVer b) = Raise (not_supported "'>='" (PySemVer b)).
Proof. repeat split. Qed.

(** C2, at ["1.0.0-alpha" < "1.0.0-alpha.1"].  Both strings construct,
    [__lt__] returns [NotImplemented] for every pair of versions, so does
    the reflected [__gt__], and [<] raises [TypeError] where the
    precedence rules say [True]; the other end of the chain, ["1.0.0"],
    does not construct at all. *)
Theorem precedence_chain_fails :
  (forall a b : SemanticVersion, __lt__ a (PySemVer b) = NotImplemented) /\
  (forall a b : SemanticVersion,
     lt_op a (PySemVer b) = Raise (not_supported "'<'" (PySemVer b))) /\
  parse "1.0.0-alpha" = Return (version_of 1 0 0 "alpha" "") /\
  parse "1.0.0-alpha.1" = Return (version_of 1 0 0 "alpha.1" "") /\
  lt_op (version_of 1 0 0 "alpha" "") (PySemVer (version_of 1 0 0 "alpha.1" "")) =
    Raise (TypeError
      "'<' not supported between instances of 'SemanticVersion' and 'SemanticVersion'") /\
  parse "1.0.0" = Raise index_error.
Proof.
  split; [reflexivity|]. split; [intros a b; apply order_operators_raise|].
  repeat split; vm_compute; reflexivity.
Qed.

(** C3, at ["1.0.0-alpha"] and ["1.0.0-beta"].  The two values are not
    equal and neither [<] nor [>] answers: each raises [TypeError], as
    [<=] and [>=] do, for every pair of versions. *)
Theorem trichotomy_fails :
  (forall a b : SemanticVersion,
     lt_op a (PySemVer b) = Raise (not_supported "'<'" (PySemVer b)) /\
     le_op a (PySemVer b) = Raise (not_supported "'<='" (PySemVer b)) /\
     gt_op a (PySemVer b) = Raise (not_supported "'>'" (PySemVer b)) /\
     ge_op a (PySemVer b) = Raise (not_supported "'>='" (PySemVer b))) /\
  parse "1.0.0-alpha" = Return (version_of 1 0 0 "alpha" "") /\
  parse "1.0.0-beta" = Return (version_of 1 0 0 "beta" "") /\
  eq_op (version_of 1 0 0 "alpha" "") (PySemVer (version_of 1 0 0 "beta" "")) = false /\
  lt_op (version_of 1 0 0 "alpha" "") (PySemVer (version_of 1 0 0 "beta" "")) =
    Raise (TypeError
      "'<' not supported between instances of 'SemanticVersion' and 'SemanticVersion'") /\
  gt_op (version_of 1 0 0 "alpha" "") (PySemVer (version_of 1 0 0 "beta" "")) =
    Raise (TypeError
      "'>' not supported between instances of 'SemanticVersion' and 'SemanticVersion'").
Proof.
  split; [exact order_operators_raise|].
  repeat split; vm_compute; reflexivity.
Qed.

(** ** Rejection and the failures of the constructor *)

Lemma init_no_match s :
  fullmatch SEMVAR s = None ->
  __init__ (PyStr s) = Raise (InvalidSemanticVersion grammar_message).
Proof. intros H. unfold __init__. now rewrite H. Qed.

(** C5, at ["01.2.3"].  A string [SEMVAR] does not match is refused with
    [InvalidSemanticVersion], as ["1.2"], ["1.2.x"] and [""] are; the
    pattern does match ["01.2.3"] and the three numerals read as 1, 2 and
    3, but the string has no pre-release and the constructor raises
    [IndexError] instead of returning the value. *)
Theorem core_leading_zero_fails :
  (forall s, fullmatch SEMVAR s = None ->
     __init__ (PyStr s) = Raise (InvalidSemanticVersion grammar_message)) /\
  parse "1.2" = Raise (InvalidSemanticVersion grammar_message) /\
  parse "1.2.x" = Raise (InvalidSemanticVersion grammar_message) /\
  parse "" = Raise (InvalidSemanticVersion grammar_message) /\
  fullmatch SEMVAR (lit "01.2.3") =
    Some (semver_groups (lit "01") (lit "2") (lit "3") [] []) /\
  int (lit "01") = Return 1%Z /\ int (lit "2") = Return 2%Z /\
  int (lit "3") = Return 3%Z /\
  parse "01.2.3" = Raise index_error.
Proof.
  split; [exact init_no_match|]. repeat split; vm_compute; reflexivity.
Qed.

(** Every way the constructor fails on a string. *)
Lemma init_failures s e :
  __init__ (PyStr s) = Raise e ->
  e = InvalidSemanticVersion grammar_message \/
  e = InvalidSemanticVersion leading_zero_message \/
  e = index_error \/
  exists n, int_max_str_digits < n /\ e = too_many_digits n.
Proof.
  destruct (fullmatch SEMVAR s) as [m|] eqn:Hm.
  - destruct (numerals_short m) eqn:Hshort.
    + shape_of Hm.
      rewrite (init_short_match s maj min pat pre bld Hm Hmaj Hmin Hpat Hids Hshort).
      destruct pre as [|id ids].
      * intros H. injection H as <-. auto.
      * destruct (existsb leading_zero (id :: ids)); [|discriminate].
        intros H. injection H as <-. auto.
    + destruct (init_long_numeral s m Hm Hshort) as [n [Hn ->]].
      intros H. injection H as <-. eauto 6.
  - rewrite (init_no_match s Hm). intros H. injection H as <-. auto.
Qed.

(** C9, at ["1.0.0"].  A value that is not a [str] is refused with
    [TypeError] before anything else is looked at, and the two reasons an
    [InvalidSemanticVersion] carries differ; but a string can also fail
    with [IndexError], and ["1.0.0"] does, or with the [ValueError] of
    [int] on a numeral above its limit on digits. *)
Theorem failure_kinds :
  (forall o, (forall s, o <> PyStr s) ->
     __init__ o = Raise (TypeError "version must be a str type")) /\
  (forall s e, __init__ (PyStr s) = Raise e ->
     e = InvalidSemanticVersion grammar_message \/
     e = InvalidSemanticVersion leading_zero_message \/
     e = index_error \/
     exists n, int_max_str_digits < n /\ e = too_many_digits n) /\
  grammar_message <> leading_zero_message /\
  parse "1.0.0" = Raise index_error.
Proof.
  split.
  - intros o Ho. destruct o; try reflexivity. now elim (Ho s).
  - split; [exact init_failures|]. split; [discriminate|]. vm_compute; reflexivity.
Qed.

(** ** Display, equality and the leading [v] *)

Lemma eq_true_iff (a b : SemanticVersion) :
  __eq__ a (PySemVer b) = Answer true <->
  _major a = _major b /\ _minor a = _minor b /\ _patch a = _patch b /\
  _preRelease a = _preRelease b.
Proof.
  unfold __eq__, str_eqb.
  destruct (list_eq_dec ascii_dec (_preRelease a) (_preRelease b)) as [Hp|Hp].
  - rewrite andb_true_r. split.
    + intros H. injection H as H.
      apply andb_true_iff in H. destruct H as [H H3].
      apply andb_true_iff in H. destruct H as [H1 H2].
      apply Z.eqb_eq in H1, H2, H3. auto.
    + intros [H1 [H2 [H3 _]]]. rewrite H1, H2, H3, !Z.eqb_refl. reflexivity.
  - rewrite andb_false_r. split; [discriminate|tauto].
Qed.

(** C7, at ["1.0.0+build1" == "1.0.0+build2"].  [__eq__] answers [True]
    exactly on equal major, minor, patch and pre-release and never reads
    the build, but neither operand of the example constructs: both
    strings raise [IndexError].  With a pre-release the two do compare
    equal. *)
Theorem equality_example_fails :
  (forall a b : SemanticVersion,
     __eq__ a (PySemVer b) = Answer true <->
     _major a = _major b /\ _minor a = _minor b /\ _patch a = _patch b /\
     _preRelease a = _preRelease b) /\
  parse "1.0.0+build1" = Raise index_error /\
  parse "1.0.0+build2" = Raise index_error /\
  parse "1.0.0-rc.1+build1" = Return (version_of 1 0 0 "rc.1" "build1") /\
  parse "1.0.0-rc.1+build2" = Return (version_of 1 0 0 "rc.1" "build2") /\
  eq_op (version_of 1 0 0 "rc.1" "build1")
        (PySemVer (version_of 1 0 0 "rc.1" "build2")) = true.
Proof.
  split; [exact eq_true_iff|]. repeat split; vm_compute; reflexivity.
Qed.

(** C8, at ["v1.2.3"].  The pattern matches, the [v] is in no group, and
    the constructor raises [IndexError]: no value with major 1, minor 2
    and patch 3 comes back.  With a pre-release the [v] is dropped as
    described. *)
Theorem leading_v_fails :
  fullmatch SEMVAR (lit "v1.2.3") =
    Some (semver_groups (lit "1") (lit "2") (lit "3") [] []) /\
  parse "v1.2.3" = Raise index_error /\
  parse "V1.2.3" = Raise index_error /\
  parse "v1.2.3-rc.1" = Return (version_of 1 2 3 "rc.1" "") /\
  __str__ (version_of 1 2 3 "rc.1" "") = lit "1.2.3-rc.1".
Proof. repeat split; vm_compute; reflexivity. Qed.

(** ** Numerals: [int] reads back what the display prints *)

Lemma digit_char_spec k :
  (k < 10)%N ->
  is_digit (ascii_of_N (48 + k)) = true /\
  digit_value (ascii_of_N (48 + k)) = Z.of_N k.
Proof.
  intros Hk.
  assert (E : (k = 0 \/ k = 1 \/ k = 2 \/ k = 3 \/ k = 4 \/ k = 5 \/ k = 6 \/
               k = 7 \/ k = 8 \/ k = 9)%N) by lia.
  repeat (destruct E as [->|E]; [split; reflexivity|]). subst k. split; reflexivity.
Qed.

Lemma digits_are_digits fuel : forall n acc,
  forallb is_digit acc = true -> forallb is_digit (digits fuel n acc) = true.
Proof.
  induction fuel as [|fuel IH]; intros n acc Hacc; [exact Hacc|].
  assert (Hd : forallb is_digit (ascii_of_N (48 + n mod 10) :: acc) = true).
  { simpl. rewrite Hacc, andb_true_r.
    apply digit_char_spec. apply N.mod_lt. discriminate. }
  simpl. destruct (n <? 10)%N; [exact Hd|]. apply IH. exact Hd.
Qed.

Lemma digits_longer fuel : forall n acc,
  length acc < length (digits (S fuel) n acc).
Proof.
  induction fuel as [|fuel IH]; intros n acc.
  - simpl. destruct (n <? 10)%N; simpl; lia.
  - change (digits (S (S fuel)) n acc)
      with (if (n <? 10)%N then ascii_of_N (48 + n mod 10) :: acc
            else digits (S fuel) (n / 10)%N (ascii_of_N (48 + n mod 10) :: acc)).
    destruct (n <? 10)%N; [simpl; lia|].
    specialize (IH (n / 10)%N (ascii_of_N (48 + n mod 10) :: acc)).
    cbn [length] in IH. lia.
Qed.

Lemma digits_value fuel : forall n acc,
  N.to_nat n < fuel ->
  fold_left (fun a c => 10 * a + digit_value c)%Z (digits fuel n acc) 0%Z =
  fold_left (fun a c => 10 * a + digit_value c)%Z acc (Z.of_N n).
Proof.
  induction fuel as [|fuel IH]; intros n acc Hfuel; [lia|].
  assert (Hd : digit_value (ascii_of_N (48 + n mod 10)) = Z.of_N (n mod 10)).
  { apply digit_char_spec. apply N.mod_lt. discriminate. }
  cbn [digits]. destruct (N.ltb_spec n 10) as [Hlt|Hge].
  - cbn [fold_left]. rewrite Hd, N.mod_small by assumption. f_equal.
  - rewrite IH.
    + cbn [fold_left]. rewrite Hd. f_equal.
      pose proof (N.div_mod n 10 ltac:(discriminate)). lia.
    + assert (n / 10 < n)%N by (apply N.div_lt; lia). lia.
Qed.

Lemma format_int_numeral z :
  (0 <= z)%Z -> numeral (format_int z) /\ numeral_value (format_int z) = z.
Proof.
  intros Hz.
  assert (E : format_int z = digits (S (N.to_nat (Z.to_N z))) (Z.to_N z) []).
  { destruct z; try reflexivity. lia. }
  rewrite E. split; [split|].
  - intros Hnil. pose proof (digits_longer (N.to_nat (Z.to_N z)) (Z.to_N z) []) as H.
    rewrite Hnil in H. simpl in H. lia.
  - now apply digits_are_digits.
  - unfold numeral_value. rewrite digits_value by lia. simpl. lia.
Qed.

Lemma digit_value_nonneg c : is_digit c = true -> (0 <= digit_value c)%Z.
Proof.
  unfold is_digit, in_range, digit_value. intros H.
  apply andb_true_iff in H. destruct H as [H _]. apply Nat.leb_le in H.
  change (nat_of_ascii "0") with 48 in H. lia.
Qed.

Lemma numeral_value_nonneg w : numeral w -> (0 <= numeral_value w)%Z.
Proof.
  intros [_ Hd]. unfold numeral_value.
  assert (G : forall a, (0 <= a)%Z ->
    (0 <= fold_left (fun a c => 10 * a + digit_value c) w a)%Z).
  { induction w as [|c w IH]; cbn [fold_left]; intros a Ha; [assumption|].
    cbn [forallb] in Hd. apply andb_true_iff in Hd. destruct Hd as [Hc Hw].
    apply IH; [assumption|]. pose proof (digit_value_nonneg c Hc). lia. }
  apply G. lia.
Qed.

Lemma digit_value_le_9 c : is_digit c = true -> (digit_value c <= 9)%Z.
Proof.
  unfold is_digit, in_range, digit_value. intros H.
  apply andb_true_iff in H. destruct H as [_ H]. apply Nat.leb_le in H.
  change (nat_of_ascii "9") with 57 in H. lia.
Qed.

(** A numeral of [k] digits reads as a number below [10 ^ k]. *)
Lemma fold_digits_bound w : forall a,
  forallb is_digit w = true -> (0 <= a)%Z ->
  (fold_left (fun a c => 10 * a + digit_value c) w a
   < (a + 1) * Z.of_N (10 ^ N.of_nat (length w)))%Z.
Proof.
  induction w as [|c w IH]; intros a Hd Ha.
  - cbn [fold_left length]. change (Z.of_N (10 ^ N.of_nat 0)) with 1%Z. lia.
  - cbn [forallb] in Hd. apply andb_true_iff in Hd. destruct Hd as [Hc Hw].
    pose proof (digit_value_nonneg c Hc) as D0.
    pose proof (digit_value_le_9 c Hc) as D9.
    cbn [fold_left length].
    specialize (IH (10 * a + digit_value c)%Z Hw ltac:(lia)).
    rewrite Nat2N.inj_succ, N.pow_succ_r', N2Z.inj_mul.
    change (Z.of_N 10) with 10%Z.
    assert (P : (0 < Z.of_N (10 ^ N.of_nat (length w)))%Z).
    { change 0%Z with (Z.of_N 0). apply N2Z.inj_lt.
      apply N.neq_0_lt_0, N.pow_nonzero. discriminate. }
    nia.
Qed.

(** A number below [10 ^ (k + 1)] prints in [k + 1] digits at most. *)
Lemma digits_length_bound fuel : forall n acc k,
  (n < 10 ^ N.of_nat (S k))%N ->
  length (digits fuel n acc) <= length acc + S k.
Proof.
  induction fuel as [|fuel IH]; intros n acc k Hn; [cbn [digits]; lia|].
  cbn [digits]. destruct (N.ltb_spec n 10) as [Hlt|Hge]; [cbn [length]; lia|].
  destruct k as [|k].
  - change (10 ^ N.of_nat 1)%N with 10%N in Hn. lia.
  - rewrite Nat2N.inj_succ, N.pow_succ_r' in Hn.
    assert (Hq : (n / 10 < 10 ^ N.of_nat (S k))%N).
    { now apply N.Div0.div_lt_upper_bound. }
    specialize (IH (n / 10)%N (ascii_of_N (48 + n mod 10) :: acc) k Hq).
    cbn [length] in IH. lia.
Qed.

(** Read and printed again, a numeral does not grow: leading zeros go. *)
Lemma format_int_length w :
  numeral w -> length (format_int (numeral_value w)) <= length w.
Proof.
  intros Hw. pose proof (numeral_value_nonneg w Hw) as Hz.
  destruct Hw as [Hne Hd].
  pose proof (fold_digits_bound w 0%Z Hd ltac:(lia)) as B.
  fold (numeral_value w) in B.
  assert (E : format_int (numeral_value w) =
              digits (S (N.to_nat (Z.to_N (numeral_value w))))
                     (Z.to_N (numeral_value w)) []).
  { destruct (numeral_value w); try reflexivity. lia. }
  rewrite E. destruct w as [|c w]; [contradiction|].
  apply (digits_length_bound _ _ [] (length w)).
  change (S (length w)) with (length (c :: w)). lia.
Qed.

Lemma printable_numeral w :
  numeral w -> short w = true -> printable (numeral_value w) = true.
Proof.
  intros Hw Hs. unfold printable, short in *.
  apply Nat.leb_le in Hs. apply Nat.leb_le.
  pose proof (format_int_length w Hw). lia.
Qed.

(** ** Display *)

Lemma join_nil_iff ids :
  Forall identifier ids -> (join "." ids = [] <-> ids = []).
Proof.
  intros H. split; [|now intros ->].
  destruct H as [|id ids [Hne _] _]; [reflexivity|].
  rewrite join_cons. intros E. apply app_eq_nil in E. tauto.
Qed.

(** The display of a value is the text of its fields: a segment is left
    out exactly when it is empty. *)
Lemma str_of_fields maj min pat pre bld :
  Forall identifier pre -> Forall identifier bld ->
  __str__ {| _major := maj; _minor := min; _patch := pat;
             _preRelease := join "." pre; _build := join "." bld |} =
  semver_text (format_int maj) (format_int min) (format_int pat) pre bld.
Proof.
  intros Hpre Hbld.
  pose proof (join_nil_iff pre Hpre) as Np.
  pose proof (join_nil_iff bld Hbld) as Nb.
  unfold __str__, semver_text, core_text, segment.
  cbn [_major _minor _patch _preRelease _build].
  change (lit ".") with ["."%char]. change (lit "-") with ["-"%char].
  change (lit "+") with ["+"%char].
  remember (join "." pre) as P eqn:EP. remember (join "." bld) as B eqn:EB.
  destruct pre as [|p pre], P as [|a P];
    try discriminate EP; try (destruct Np as [Np _]; discriminate (Np eq_refl));
    destruct bld as [|b bld], B as [|c B];
    try discriminate EB; try (destruct Nb as [Nb _]; discriminate (Nb eq_refl));
    cbn [app]; rewrite <- ?app_assoc, ?app_nil_r; reflexivity.
Qed.

(** ** Reading back the display *)

(** The fields of a value the constructor returned. *)
Lemma constructed_fields s v :
  __init__ (PyStr s) = Return v ->
  exists maj min pat pre bld,
    numeral maj /\ numeral min /\ numeral pat /\
    Forall identifier pre /\ pre <> [] /\ existsb leading_zero pre = false /\
    Forall identifier bld /\
    v = {| _major := numeral_value maj; _minor := numeral_value min;
           _patch := numeral_value pat; _preRelease := join "." pre;
           _build := join "." bld |}.
Proof.
  intros Hv. destruct (fullmatch SEMVAR s) as [m|] eqn:Hm.
  - shape_of Hm.
    rewrite (init_on_any_match s maj min pat pre bld Hm Hmaj Hmin Hpat Hids) in Hv.
    destruct (short maj); [|discriminate].
    destruct (short min); [|discriminate].
    destruct (short pat); [|discriminate].
    destruct pre as [|id ids]; [discriminate|].
    destruct (existsb leading_zero (id :: ids)) eqn:Hz; [discriminate|].
    injection Hv as <-.
    exists maj, min, pat, (id :: ids), bld. repeat split; auto;
      try apply Hmaj; try apply Hmin; try apply Hpat. discriminate.
  - rewrite (init_no_match s Hm) in Hv. discriminate.
Qed.

(** The numbers of a value the constructor returned are within the
    limit on the digits that are printed. *)
Lemma constructed_printable s v :
  __init__ (PyStr s) = Return v ->
  printable (_major v) = true /\ printable (_minor v) = true /\
  printable (_patch v) = true.
Proof.
  intros Hv. destruct (fullmatch SEMVAR s) as [m|] eqn:Hm.
  - shape_of Hm.
    rewrite (init_on_any_match s maj min pat pre bld Hm Hmaj Hmin Hpat Hids) in Hv.
    destruct (short maj) eqn:S1; [|discriminate].
    destruct (short min) eqn:S2; [|discriminate].
    destruct (short pat) eqn:S3; [|discriminate].
    destruct pre as [|id ids]; [discriminate|].
    destruct (existsb leading_zero (id :: ids)); [discriminate|].
    injection Hv as <-. cbn [_major _minor _patch].
    repeat split; now apply printable_numeral.
  - rewrite (init_no_match s Hm) in Hv. discriminate.
Qed.

(** The constructor on the display of a value with well-formed fields. *)
Lemma init_of_str maj min pat pre bld :
  (0 <= maj)%Z -> (0 <= min)%Z -> (0 <= pat)%Z ->
  printable maj = true -> printable min = true -> printable pat = true ->
  Forall identifier pre -> Forall identifier bld ->
  __init__ (PyStr (__str__ {| _major := maj; _minor := min; _patch := pat;
                             _preRelease := join "." pre;
                             _build := join "." bld |})) =
  match pre with
  | [] => Raise index_error
  | _ :: _ =>
      if existsb leading_zero pre
      then Raise (InvalidSemanticVersion leading_zero_message)
      else Return {| _major := maj; _minor := min; _patch := pat;
                     _preRelease := join "." pre; _build := join "." bld |}
  end.
Proof.
  intros Hmaj Hmin Hpat Pmaj Pmin Ppat Hpre Hbld.
  destruct (format_int_numeral maj Hmaj) as [Nmaj Vmaj].
  destruct (format_int_numeral min Hmin) as [Nmin Vmin].
  destruct (format_int_numeral pat Hpat) as [Npat Vpat].
  rewrite str_of_fields by assumption.
  rewrite (init_on_match _ (format_int maj) (format_int min) (format_int pat) pre bld);
    try assumption.
  - now rewrite Vmaj, Vmin, Vpat.
  - apply SEMVAR_match_complete.
    exists [], (format_int maj), (format_int min), (format_int pat), pre, bld.
    repeat split; auto; try apply Nmaj; try apply Nmin; try apply Npat.
Qed.

(** X1.  A value the constructor returned is read back from its display:
    [SemanticVersion(str(v))] returns [v], field by field, build
    included. *)
Theorem round_trip_constructed (s : str) (v : SemanticVersion) :
  __init__ (PyStr s) = Return v ->
  __init__ (PyStr (__str__ v)) = Return v.
Proof.
  intros Hv.
  destruct (constructed_printable s v Hv) as [P1 [P2 P3]].
  destruct (constructed_fields s v Hv)
    as [maj [min [pat [pre [bld [Hmaj [Hmin [Hpat [Hpre [Hne [Hz [Hbld ->]]]]]]]]]]]].
  cbn [_major _minor _patch] in P1, P2, P3.
  rewrite (init_of_str _ _ _ pre bld); try assumption;
    try now apply numeral_value_nonneg.
  rewrite Hz. destruct pre; [contradiction|reflexivity].
Qed.

Lemma round_trip_constructed_witness :
  __init__ (PyStr (__str__ (version_of 1 2 3 "rc.1" "build.7"))) =
  Return (version_of 1 2 3 "rc.1" "build.7").
Proof.
  apply (round_trip_constructed (lit "V01.2.3-rc.1+build.7")).
  vm_compute; reflexivity.
Defined.

(** C6, at the value 1.0.0 with no pre-release and no build.  [__str__]
    leaves both segments out and gives ["1.0.0"], which the constructor
    does not read back: it raises [IndexError], as it does on the display
    of every value without a pre-release whose numbers are within the
    limit on the digits that are printed. *)
Theorem round_trip_fails :
  __str__ (version_of 1 0 0 "" "") = lit "1.0.0" /\
  __init__ (PyStr (__str__ (version_of 1 0 0 "" ""))) = Raise index_error /\
  __str__ (version_of 1 2 3 "" "b7") = lit "1.2.3+b7" /\
  __init__ (PyStr (__str__ (version_of 1 2 3 "" "b7"))) = Raise index_error /\
  (forall maj min pat bld,
     (0 <= maj)%Z -> (0 <= min)%Z -> (0 <= pat)%Z ->
     printable maj = true -> printable min = true -> printable pat = true ->
     Forall identifier bld ->
     __init__ (PyStr (__str__ {| _major := maj; _minor := min; _patch := pat;
                                _preRelease := []; _build := join "." bld |})) =
     Raise index_error).
Proof.
  repeat split; try (vm_compute; reflexivity).
  intros maj min pat bld Hmaj Hmin Hpat Pmaj Pmin Ppat Hbld.
  exact (init_of_str maj min pat [] bld Hmaj Hmin Hpat Pmaj Pmin Ppat
           (Forall_nil _) Hbld).
Qed.

(** ** Equality *)

Lemma eq_op_spec (a b : SemanticVersion) :
  eq_op a (PySemVer b) = true <->
  _major a = _major b /\ _minor a = _minor b /\ _patch a = _patch b /\
  _preRelease a = _preRelease b.
Proof.
  rewrite <- eq_true_iff. unfold eq_op, __eq__.
  split; [now intros ->|]. intros H. now injection H.
Qed.

(** X3.  On versions [==] is an equivalence relation, and [!=] is its
    negation. *)
Theorem eq_op_equivalence :
  (forall a, eq_op a (PySemVer a) = true) /\
  (forall a b, eq_op a (PySemVer b) = eq_op b (PySemVer a)) /\
  (forall a b c, eq_op a (PySemVer b) = true -> eq_op b (PySemVer c) = true ->
                 eq_op a (PySemVer c) = true) /\
  (forall a b, ne_op a (PySemVer b) = negb (eq_op a (PySemVer b))).
Proof.
  split; [|split; [|split]].
  - intros a. apply eq_op_spec. auto.
  - intros a b. destruct (eq_op a (PySemVer b)) eqn:E1, (eq_op b (PySemVer a)) eqn:E2;
      try reflexivity.
    + apply eq_op_spec in E1. destruct E1 as [H1 [H2 [H3 H4]]].
      assert (E : eq_op b (PySemVer a) = true) by (apply eq_op_spec; auto).
      congruence.
    + apply eq_op_spec in E2. destruct E2 as [H1 [H2 [H3 H4]]].
      assert (E : eq_op a (PySemVer b) = true) by (apply eq_op_spec; auto).
      congruence.
  - intros a b c H1 H2. apply eq_op_spec in H1, H2. apply eq_op_spec.
    destruct H1 as [A1 [A2 [A3 A4]]]. destruct H2 as [B1 [B2 [B3 B4]]].
    repeat split; congruence.
  - reflexivity.
Qed.

(** ** The values the constructor returns *)

Lemma split_not_nil sep s : split sep s <> [].
Proof.
  destruct s as [|c s]; simpl; [discriminate|].
  destruct (Ascii.eqb c sep); [discriminate|].
  destruct (split sep s); discriminate.
Qed.

(** Joining undoes splitting, on every string. *)
Lemma join_split sep s : join sep (split sep s) = s.
Proof.
  induction s as [|c s IH]; [reflexivity|].
  cbn [split]. destruct (Ascii.eqb_spec c sep) as [->|Hc].
  - pose proof (split_not_nil sep s) as Hne.
    destruct (split sep s) as [|p ps]; [contradiction|].
    change (join sep ([] :: p :: ps)) with (sep :: join sep (p :: ps)).
    now rewrite IH.
  - pose proof (split_not_nil sep s) as Hne.
    destruct (split sep s) as [|p ps]; [contradiction|].
    rewrite <- IH. destruct ps; reflexivity.
Qed.

Lemma existsb_false_Forall {A : Type} (f : A -> bool) (l : list A) :
  existsb f l = false <-> Forall (fun a => f a = false) l.
Proof.
  induction l as [|a l IH]; simpl.
  - split; [constructor|reflexivity].
  - rewrite orb_false_iff, IH. split.
    + intros [Ha Hl]. now constructor.
    + intros H. inversion H; subst. auto.
Qed.

(** X4.  The values the constructor can return are exactly those with
    non-negative major, minor and patch of at most 4300 digits each, a
    pre-release that is not empty and whose parts are identifiers that
    pass the leading-zero test, and a build that is empty or made of
    identifiers; and they are exactly the values the constructor returns
    for their own display. *)
Theorem constructed_iff_well_formed (v : SemanticVersion) :
  ((exists s, __init__ (PyStr s) = Return v) <->
   __init__ (PyStr (__str__ v)) = Return v) /\
  (__init__ (PyStr (__str__ v)) = Return v <->
   (0 <= major v)%Z /\ (0 <= minor v)%Z /\ (0 <= patch v)%Z /\
   printable (major v) = true /\ printable (minor v) = true /\
   printable (patch v) = true /\
   preRelease v <> [] /\
   Forall (fun p => identifier p /\ leading_zero p = false)
          (split "." (preRelease v)) /\
   (buildMetadata v = [] \/ Forall identifier (split "." (buildMetadata v)))).
Proof.
  assert (Hfields : forall s, __init__ (PyStr s) = Return v ->
    (0 <= major v)%Z /\ (0 <= minor v)%Z /\ (0 <= patch v)%Z /\
    printable (major v) = true /\ printable (minor v) = true /\
    printable (patch v) = true /\
    preRelease v <> [] /\
    Forall (fun p => identifier p /\ leading_zero p = false)
           (split "." (preRelease v)) /\
    (buildMetadata v = [] \/ Forall identifier (split "." (buildMetadata v)))).
  { intros s Hv.
    destruct (constructed_printable s v Hv) as [P1 [P2 P3]].
    destruct (constructed_fields s v Hv)
      as [maj [min [pat [pre [bld [Hmaj [Hmin [Hpat [Hpre [Hne [Hz [Hbld ->]]]]]]]]]]]].
    unfold major, minor, patch, preRelease, buildMetadata.
    cbn [_major _minor _patch _preRelease _build] in *.
    repeat split; try assumption; try now apply numeral_value_nonneg.
    - intros E. apply (join_nil_iff pre Hpre) in E. contradiction.
    - rewrite split_join by assumption.
      apply existsb_false_Forall in Hz.
      rewrite Forall_forall in *. intros p Hp. split; auto.
    - destruct bld as [|b bld]; [now left|right].
      rewrite split_join by (assumption || discriminate). assumption. }
  assert (Hback : 
    (0 <= major v)%Z /\ (0 <= minor v)%Z /\ (0 <= patch v)%Z /\
    printable (major v) = true /\ printable (minor v) = true /\
    printable (patch v) = true /\
    preRelease v <> [] /\
    Forall (fun p => identifier p /\ leading_zero p = false)
           (split "." (preRelease v)) /\
    (buildMetadata v = [] \/ Forall identifier (split "." (buildMetadata v))) ->
    __init__ (PyStr (__str__ v)) = Return v).
  { destruct v as [maj min pat P B].
    unfold major, minor, patch, preRelease, buildMetadata.
    cbn [_major _minor _patch _preRelease _build].
    intros [Hmaj [Hmin [Hpat [Pmaj [Pmin [Ppat [HP [Hparts Hbuild]]]]]]]].
    set (pre := split "." P).
    set (bld := match B with [] => [] | _ :: _ => split "." B end).
    assert (Hpre : Forall identifier pre).
    { eapply Forall_impl; [|exact Hparts]. now intros p [Hp _]. }
    assert (Hz : existsb leading_zero pre = false).
    { apply existsb_false_Forall. eapply Forall_impl; [|exact Hparts].
      now intros p [_ Hp]. }
    assert (Hbld : Forall identifier bld).
    { unfold bld. destruct B as [|b B]; [constructor|].
      destruct Hbuild as [E|H]; [discriminate|assumption]. }
    assert (EP : join "." pre = P) by apply join_split.
    assert (EB : join "." bld = B).
    { unfold bld. destruct B; [reflexivity|apply join_split]. }
    rewrite <- EP, <- EB.
    rewrite (init_of_str maj min pat pre bld Hmaj Hmin Hpat Pmaj Pmin Ppat Hpre Hbld), Hz.
    pose proof (split_not_nil "." P) as Hne. fold pre in Hne.
    destruct pre; [contradiction|reflexivity]. }
  split; split.
  - intros [s Hv]. apply Hback. exact (Hfields s Hv).
  - intros Hv. eauto.
  - apply Hfields.
  - exact Hback.
Qed.

(** The constructor reads the display of a value it returned. *)
Lemma init_of_display s v :
  __init__ (PyStr s) = Return v -> __init__ (PyStr (__str__ v)) = Return v.
Proof.
  intros Hv.
  destruct (constructed_printable s v Hv) as [P1 [P2 P3]].
  destruct (constructed_fields s v Hv)
    as [maj [min [pat [pre [bld [Hmaj [Hmin [Hpat [Hpre [Hne [Hz [Hbld ->]]]]]]]]]]]].
  cbn [_major _minor _patch] in P1, P2, P3.
  rewrite (init_of_str _ _ _ pre bld); try assumption;
    try now apply numeral_value_nonneg.
  rewrite Hz. destruct pre; [contradiction|reflexivity].
Qed.

(** X5.  The display tells the values of the constructor apart: two of
    them with the same display are the same in every field, the build
    included, although [==] does not look at the build. *)
Theorem display_injective (s1 s2 : str) (a b : SemanticVersion) :
  __init__ (PyStr s1) = Return a ->
  __init__ (PyStr s2) = Return b ->
  (__str__ a = __str__ b <-> a = b).
Proof.
  intros Ha Hb. split; [|now intros ->]. intros E.
  pose proof (init_of_display s1 a Ha) as Ra.
  pose proof (init_of_display s2 b Hb) as Rb.
  rewrite E in Ra. rewrite Ra in Rb. now injection Rb.
Qed.

Lemma display_injective_witness :
  __str__ (version_of 1 2 3 "rc.1" "b7") = __str__ (version_of 1 2 3 "rc.1" "b8") <->
  version_of 1 2 3 "rc.1" "b7" = version_of 1 2 3 "rc.1" "b8".
Proof.
  apply (display_injective (lit "v1.2.3-rc.1+b7") (lit "01.2.3-rc.1+b8"));
    vm_compute; reflexivity.
Defined.

(** ** The [version] property *)

Lemma digit_is_identifier_char c :
  is_digit c = true -> is_identifier_char c = true.
Proof.
  unfold is_digit, is_identifier_char. intros ->.
  now rewrite orb_true_r.
Qed.

Lemma numeral_identifier_chars w :
  forallb is_digit w = true -> forallb is_identifier_char w = true.
Proof.
  rewrite !forallb_forall. intros H c Hc. apply digit_is_identifier_char. auto.
Qed.

Lemma split_core_text maj min pat :
  numeral maj -> numeral min -> numeral pat ->
  split "." (core_text maj min pat) = [maj; min; pat].
Proof.
  intros [_ Hmaj] [_ Hmin] [_ Hpat]. unfold core_text.
  rewrite split_app_dot by now apply numeral_identifier_chars.
  rewrite split_app_dot by now apply numeral_identifier_chars.
  rewrite split_no_dot by now apply numeral_identifier_chars.
  reflexivity.
Qed.

Lemma int_format_int z :
  (0 <= z)%Z -> printable z = true -> int (format_int z) = Return z.
Proof.
  intros Hz Hp. destruct (format_int_numeral z Hz) as [Hn Hv].
  now rewrite (int_short_numeral _ Hn Hp), Hv.
Qed.

(** X6.  On a value the constructor returned, [version] is three
    numerals separated by dots: split on ['.'] it has three parts, and
    [int] reads them back as [major], [minor] and [patch]. *)
Theorem version_parts (s : str) (v : SemanticVersion) :
  __init__ (PyStr s) = Return v ->
  map int (split "." (version v)) =
  [Return (major v); Return (minor v); Return (patch v)].
Proof.
  intros Hv.
  destruct (constructed_printable s v Hv) as [P1 [P2 P3]].
  destruct (constructed_fields s v Hv)
    as [maj [min [pat [pre [bld [Hmaj [Hmin [Hpat [_ [_ [_ [_ ->]]]]]]]]]]]].
  unfold version, major, minor, patch. cbn [_major _minor _patch] in *.
  pose proof (numeral_value_nonneg _ Hmaj) as Pmaj.
  pose proof (numeral_value_nonneg _ Hmin) as Pmin.
  pose proof (numeral_value_nonneg _ Hpat) as Ppat.
  change (format_int (numeral_value maj) ++ lit "." ++
          format_int (numeral_value min) ++ lit "." ++
          format_int (numeral_value pat))
    with (core_text (format_int (numeral_value maj))
                    (format_int (numeral_value min))
                    (format_int (numeral_value pat))).
  rewrite split_core_text by (now apply format_int_numeral).
  cbn [map]. now rewrite !int_format_int.
Qed.

Lemma version_parts_witness :
  map int (split "." (version (version_of 10 0 7 "rc.1" ""))) =
  [Return (major (version_of 10 0 7 "rc.1" ""));
   Return (minor (version_of 10 0 7 "rc.1" ""));
   Return (patch (version_of 10 0 7 "rc.1" ""))].
Proof.
  apply (version_parts (lit "v010.00.7-rc.1")). vm_compute; reflexivity.
Defined.

(** X7.  The constructor does not accept the string [version] returns:
    on a value it returned itself, [SemanticVersion(v.version)] raises
    [IndexError]. *)
Theorem version_not_accepted (s : str) (v : SemanticVersion) :
  __init__ (PyStr s) = Return v ->
  __init__ (PyStr (version v)) = Raise index_error.
Proof.
  intros Hv.
  destruct (constructed_printable s v Hv) as [P1 [P2 P3]].
  destruct (constructed_fields s v Hv)
    as [maj [min [pat [pre [bld [Hmaj [Hmin [Hpat [_ [_ [_ [_ ->]]]]]]]]]]]].
  cbn [_major _minor _patch] in P1, P2, P3.
  exact (init_of_str _ _ _ [] []
           (numeral_value_nonneg _ Hmaj) (numeral_value_nonneg _ Hmin)
           (numeral_value_nonneg _ Hpat) P1 P2 P3 (Forall_nil _) (Forall_nil _)).
Qed.

Lemma version_not_accepted_witness :
  __init__ (PyStr (version (version_of 1 2 3 "beta" "x"))) = Raise index_error.
Proof.
  apply (version_not_accepted (lit "1.2.3-beta+x")). vm_compute; reflexivity.
Defined.

(** ** The characters of a matched string *)

Lemma forallb_weaken {A : Type} (p q : A -> bool) (l : list A) :
  (forall a, p a = true -> q a = true) ->
  forallb p l = true -> forallb q l = true.
Proof. rewrite !forallb_forall. auto. Qed.

Lemma dotted_is_version_char c : dotted_char c = true -> version_char c = true.
Proof.
  unfold dotted_char, version_char. intros ->. reflexivity.
Qed.

Lemma digit_is_version_char c : is_digit c = true -> version_char c = true.
Proof.
  intros H. unfold version_char. now rewrite (digit_is_identifier_char c H).
Qed.

Lemma segment_chars mark ids :
  version_char mark = true -> Forall identifier ids ->
  forallb version_char (segment mark ids) = true.
Proof.
  intros Hmark Hids. destruct ids as [|id ids]; [reflexivity|].
  cbn [segment forallb]. rewrite Hmark.
  apply (forallb_weaken dotted_char); [apply dotted_is_version_char|].
  now apply join_dotted.
Qed.

Lemma semver_text_chars maj min pat pre bld :
  numeral maj -> numeral min -> numeral pat ->
  Forall identifier pre -> Forall identifier bld ->
  forallb version_char (semver_text maj min pat pre bld) = true.
Proof.
  intros [_ Hmaj] [_ Hmin] [_ Hpat] Hpre Hbld.
  unfold semver_text, core_text.
  rewrite !forallb_app. cbn [forallb]. rewrite !forallb_app. cbn [forallb].
  rewrite (forallb_weaken _ _ maj digit_is_version_char Hmaj).
  rewrite (forallb_weaken _ _ min digit_is_version_char Hmin).
  rewrite (forallb_weaken _ _ pat digit_is_version_char Hpat).
  rewrite (segment_chars "-" pre eq_refl Hpre).
  rewrite (segment_chars "+" bld eq_refl Hbld).
  reflexivity.
Qed.

Lemma matched_chars s m :
  fullmatch SEMVAR s = Some m -> forallb version_char s = true.
Proof.
  intros Hm.
  destruct (SEMVAR_match_shape s m Hm)
    as [v [maj [min [pat [pre [bld [Hv [Hmaj [Hmin [Hpat [Hpre [Hbld [-> _]]]]]]]]]]]]].
  rewrite forallb_app, semver_text_chars by assumption.
  destruct Hv as [ -> | [ -> | -> ] ]; reflexivity.
Qed.

(** X8.  A string with a character that is not a letter, a digit, ['-'],
    ['.'] or ['+'] is refused with [InvalidSemanticVersion]: blanks are
    not stripped, and a newline at the end is not let through by the
    closing [$]. *)
Theorem foreign_character_refused (s : str) :
  existsb (fun c => negb (version_char c)) s = true ->
  __init__ (PyStr s) = Raise (InvalidSemanticVersion grammar_message).
Proof.
  intros H. apply init_no_match.
  destruct (fullmatch SEMVAR s) as [m|] eqn:Hm; [|reflexivity].
  apply matched_chars in Hm. apply existsb_exists in H.
  destruct H as [c [Hc Hbad]]. rewrite forallb_forall in Hm.
  rewrite (Hm c Hc) in Hbad. discriminate.
Qed.

Lemma foreign_character_refused_witness :
  __init__ (PyStr (lit "1.0.0-rc.1" ++ ["010"%char])) =
    Raise (InvalidSemanticVersion grammar_message) /\
  __init__ (PyStr (lit " 1.0.0-rc.1")) =
    Raise (InvalidSemanticVersion grammar_message).
Proof.
  split; apply foreign_character_refused; reflexivity.
Defined.

(** ** [__repr__] *)

Lemma until_quote_app w rest :
  forallb version_char w = true -> until_quote (w ++ dquote :: rest) = w.
Proof.
  induction w as [|c w IH]; cbn [app until_quote forallb]; intros H.
  - reflexivity.
  - apply andb_true_iff in H. destruct H as [Hc Hw].
    destruct (Ascii.eqb_spec c dquote) as [->|_]; [discriminate|].
    now rewrite IH.
Qed.

(** X9.  On a value the constructor returned, [repr] is
    [SemanticVersion("...")] around the display; the display holds no
    quotation mark, so the text between the two marks is the display,
    and the constructor reads it back as the same value. *)
Theorem repr_reads_back (s : str) (v : SemanticVersion) :
  __init__ (PyStr s) = Return v ->
  existsb (Ascii.eqb dquote) (__str__ v) = false /\
  quoted (__repr__ v) = __str__ v /\
  __init__ (PyStr (quoted (__repr__ v))) = Return v.
Proof.
  intros Hv. pose proof (init_of_display s v Hv) as R.
  assert (Hchars : forallb version_char (__str__ v) = true).
  { unfold __init__ in R.
    destruct (fullmatch SEMVAR (__str__ v)) as [m|] eqn:Hm; [|discriminate].
    exact (matched_chars _ _ Hm). }
  assert (Hq : quoted (__repr__ v) = __str__ v).
  { unfold __repr__. cbn [lit list_ascii_of_string app quoted].
    change (Ascii.eqb "S" dquote) with false. cbv iota.
    cbn. now apply until_quote_app. }
  split; [|split].
  - apply existsb_false_Forall. apply Forall_forall. intros c Hc.
    rewrite forallb_forall in Hchars. specialize (Hchars c Hc).
    destruct (Ascii.eqb_spec dquote c) as [<-|]; [discriminate|reflexivity].
  - exact Hq.
  - rewrite Hq. exact R.
Qed.

Lemma repr_reads_back_witness :
  existsb (Ascii.eqb dquote) (__str__ (version_of 1 2 3 "rc.1" "b7")) = false /\
  quoted (__repr__ (version_of 1 2 3 "rc.1" "b7")) =
    __str__ (version_of 1 2 3 "rc.1" "b7") /\
  __init__ (PyStr (quoted (__repr__ (version_of 1 2 3 "rc.1" "b7")))) =
    Return (version_of 1 2 3 "rc.1" "b7").
Proof.
  apply (repr_reads_back (lit "V1.2.3-rc.1+b7")). vm_compute; reflexivity.
Defined.

(** ** What the constructor ignores in its input *)

Lemma option_ext {A : Type} (a b : option A) :
  (forall x, a = Some x <-> b = Some x) -> a = b.
Proof.
  intros H. destruct a as [x|].
  - symmetry. now apply H.
  - destruct b as [y|]; [|reflexivity]. now apply H.
Qed.

Lemma semver_text_starts_with_digit maj min pat pre bld :
  numeral maj ->
  exists c rest, semver_text maj min pat pre bld = c :: rest /\ is_digit c = true.
Proof.
  intros [Hne Hd]. destruct maj as [|c maj]; [contradiction|].
  cbn [forallb] in Hd. apply andb_true_iff in Hd. destruct Hd as [Hc _].
  exists c. eexists. split; [reflexivity|assumption].
Qed.

Lemma shape_with_prefix c s m :
  c = "v"%char \/ c = "V"%char ->
  stops (fun a => Ascii.eqb a "V" || Ascii.eqb a "v") s ->
  (semver_shape (c :: s) m <-> semver_shape s m).
Proof.
  intros Hc Hs. split.
  - intros [v [maj [min [pat [pre [bld [Hv [Hmaj [Hmin [Hpat [Hpre [Hbld [E ->]]]]]]]]]]]]].
    destruct (semver_text_starts_with_digit maj min pat pre bld Hmaj)
      as [d [rest [Et Hd]]].
    assert (Es : s = semver_text maj min pat pre bld).
    { destruct Hv as [ -> | [ -> | -> ] ]; cbn [app] in E.
      - rewrite Et in E. injection E as -> _. destruct Hc as [->| ->]; discriminate.
      - now injection E.
      - now injection E. }
    exists [], maj, min, pat, pre, bld. repeat split; auto;
      try apply Hmaj; try apply Hmin; try apply Hpat.
  - intros [v [maj [min [pat [pre [bld [Hv [Hmaj [Hmin [Hpat [Hpre [Hbld [E ->]]]]]]]]]]]]].
    assert (v = []) as ->.
    { destruct Hv as [ -> | [ -> | -> ] ]; [reflexivity| |];
        subst s; simpl in Hs; discriminate. }
    exists [c], maj, min, pat, pre, bld. repeat split; auto;
      try apply Hmaj; try apply Hmin; try apply Hpat.
    + destruct Hc as [->| ->]; auto.
    + now rewrite E.
Qed.

(** X10.  A leading [v] or [V] changes nothing: put before a string
    that does not start with one already, it leaves the outcome of the
    constructor, value or exception, as it was. *)
Theorem leading_v_ignored (c : ascii) (s : str) :
  c = "v"%char \/ c = "V"%char ->
  stops (fun a => Ascii.eqb a "V" || Ascii.eqb a "v") s ->
  __init__ (PyStr (c :: s)) = __init__ (PyStr s).
Proof.
  intros Hc Hs.
  assert (E : fullmatch SEMVAR (c :: s) = fullmatch SEMVAR s).
  { apply option_ext. intros m.
    split; intros H; apply SEMVAR_match_complete; apply SEMVAR_match_shape in H;
      now apply (shape_with_prefix c s m Hc Hs). }
  unfold __init__. now rewrite E.
Qed.

Lemma leading_v_ignored_witness :
  __init__ (PyStr ("v"%char :: lit "1.2.3-rc.1")) = __init__ (PyStr (lit "1.2.3-rc.1")) /\
  __init__ (PyStr ("V"%char :: lit "1.2")) = __init__ (PyStr (lit "1.2")).
Proof.
  split; apply leading_v_ignored; simpl; auto.
Defined.

Lemma numeral_value_zero w :
  numeral_value ("0"%char :: w) = numeral_value w.
Proof. reflexivity. Qed.

Lemma prefix_of_digit_start v s maj min pat pre bld :
  v = [] \/ v = ["V"%char] \/ v = ["v"%char] ->
  s = v ++ semver_text maj min pat pre bld ->
  (exists c rest, s = c :: rest /\ is_digit c = true) ->
  v = [].
Proof.
  intros Hv -> [c [rest [E Hc]]].
  destruct Hv as [ -> | [ -> | -> ] ]; [reflexivity| |];
    injection E as <- _; discriminate.
Qed.

Lemma leading_digits_app w rest :
  forallb is_digit w = true -> stops is_digit rest ->
  leading_digits (w ++ rest) = w.
Proof.
  induction w as [|c w IH]; cbn [app forallb]; intros Hw Hrest.
  - destruct rest as [|d rest]; [reflexivity|]. cbn in *. now rewrite Hrest.
  - apply andb_true_iff in Hw. destruct Hw as [Hc Hw].
    cbn [leading_digits]. now rewrite Hc, IH.
Qed.

Lemma leading_digits_semver_text maj min pat pre bld :
  numeral maj -> leading_digits (semver_text maj min pat pre bld) = maj.
Proof.
  intros [_ Hd]. unfold semver_text, core_text.
  rewrite <- app_assoc. apply leading_digits_app; [assumption|reflexivity].
Qed.

(** X11.  A zero put before a string that starts with fewer than 4300
    digits changes nothing: leading zeros of the major number are read
    away, and the outcome of the constructor, value or exception, stays
    as it was.  (With 4300 digits the zero makes one too many for
    [int].) *)
Theorem leading_zero_of_major_ignored (c : ascii) (s : str) :
  is_digit c = true ->
  length (leading_digits (c :: s)) < int_max_str_digits ->
  __init__ (PyStr ("0"%char :: c :: s)) = __init__ (PyStr (c :: s)).
Proof.
  intros Hc Hlen.
  destruct (fullmatch SEMVAR (c :: s)) as [m|] eqn:Hm.
  - destruct (SEMVAR_match_shape _ _ Hm)
      as [v [maj [min [pat [pre [bld [Hv [Hmaj [Hmin [Hpat [Hpre [Hbld [E ->]]]]]]]]]]]]].
    assert (v = []) as ->.
    { apply (prefix_of_digit_start v (c :: s) maj min pat pre bld Hv E). eauto. }
    assert (Hmaj' : numeral ("0"%char :: maj)).
    { split; [discriminate|]. cbn [forallb]. now destruct Hmaj as [_ ->]. }
    assert (Hm' : fullmatch SEMVAR ("0"%char :: c :: s) =
                  Some (semver_groups ("0"%char :: maj) min pat pre bld)).
    { apply SEMVAR_match_complete.
      exists [], ("0"%char :: maj), min, pat, pre, bld.
      repeat split; auto; try apply Hmaj'; try apply Hmin; try apply Hpat.
      rewrite E. reflexivity. }
    cbn [app] in E. rewrite E, leading_digits_semver_text in Hlen by assumption.
    assert (S1 : short maj = true).
    { unfold short. apply Nat.leb_le. lia. }
    assert (S2 : short ("0"%char :: maj) = true).
    { unfold short. apply Nat.leb_le. cbn [length]. lia. }
    rewrite (init_on_any_match _ _ _ _ _ _ Hm' Hmaj' Hmin Hpat Hpre).
    rewrite (init_on_any_match _ _ _ _ _ _ Hm Hmaj Hmin Hpat Hpre).
    now rewrite S1, S2, numeral_value_zero.
  - rewrite (init_no_match _ Hm). apply init_no_match.
    destruct (fullmatch SEMVAR ("0"%char :: c :: s)) as [m'|] eqn:Hm'; [|reflexivity].
    exfalso.
    destruct (SEMVAR_match_shape _ _ Hm')
      as [v [maj [min [pat [pre [bld [Hv [Hmaj [Hmin [Hpat [Hpre [Hbld [E _]]]]]]]]]]]]].
    assert (v = []) as ->.
    { apply (prefix_of_digit_start v _ maj min pat pre bld Hv E). eauto. }
    destruct Hmaj as [Hne Hd]. destruct maj as [|z maj]; [contradiction|].
    cbn [forallb] in Hd. apply andb_true_iff in Hd. destruct Hd as [_ Hd].
    unfold semver_text, core_text in E. cbn [app] in E. injection E as _ E.
    destruct maj as [|d maj].
    + cbn [app] in E. injection E as -> _. discriminate.
    + assert (Hs : semver_shape (c :: s) (semver_groups (d :: maj) min pat pre bld)).
      { exists [], (d :: maj), min, pat, pre, bld.
        repeat split; auto; try apply Hmin; try apply Hpat; discriminate. }
      apply SEMVAR_match_complete in Hs. congruence.
Qed.

Lemma leading_zero_of_major_ignored_witness :
  __init__ (PyStr (lit "012.0.3-rc.1")) = __init__ (PyStr (lit "12.0.3-rc.1")).
Proof.
  apply (leading_zero_of_major_ignored "1" (lit "2.0.3-rc.1")); [reflexivity|].
  apply Nat.ltb_lt. vm_compute. reflexivity.
Defined.

(** ** [toDict] *)

Lemma dict_get_toDict (v : SemanticVersion) :
  dict_get "major" (toDict v) = Some (PyInt (_major v)) /\
  dict_get "minor" (toDict v) = Some (PyInt (_minor v)) /\
  dict_get "patch" (toDict v) = Some (PyInt (_patch v)) /\
  dict_get "pre_release" (toDict v) = Some (PyStr (_preRelease v)) /\
  dict_get "build_metadata" (toDict v) = Some (PyStr (_build v)).
Proof. repeat split. Qed.

(** X12.  [toDict] has the five keys, so it tells apart every two
    versions that differ in a field; [==] holds exactly when the two
    dicts agree under every key but ['build_metadata']. *)
Theorem toDict_and_equality (a b : SemanticVersion) :
  map fst (toDict a) =
    ["major"; "minor"; "patch"; "pre_release"; "build_metadata"]%string /\
  (toDict a = toDict b <-> a = b) /\
  (eq_op a (PySemVer b) = true <->
   forall key, key <> "build_metadata"%string ->
               dict_get key (toDict a) = dict_get key (toDict b)).
Proof.
  split; [reflexivity|]. split; [|split].
  - split; [|now intros ->]. intros E. destruct a, b.
    unfold toDict in E. cbn in E. now injection E as -> -> -> -> ->.
  - intros H key Hkey. apply eq_op_spec in H.
    destruct H as [H1 [H2 [H3 H4]]]. unfold toDict. cbn [dict_get].
    rewrite H1, H2, H3, H4.
    destruct (String.eqb_spec "build_metadata" key) as [E|_];
      [now elim Hkey|reflexivity].
  - intros H. apply eq_op_spec.
    destruct (dict_get_toDict a) as [A1 [A2 [A3 [A4 _]]]].
    destruct (dict_get_toDict b) as [B1 [B2 [B3 [B4 _]]]].
    pose proof (H "major"%string ltac:(discriminate)) as E1.
    pose proof (H "minor"%string ltac:(discriminate)) as E2.
    pose proof (H "patch"%string ltac:(discriminate)) as E3.
    pose proof (H "pre_release"%string ltac:(discriminate)) as E4.
    rewrite A1, B1 in E1. rewrite A2, B2 in E2. rewrite A3, B3 in E3.
    rewrite A4, B4 in E4.
    injection E1 as E1. injection E2 as E2. injection E3 as E3. injection E4 as E4.
    auto.
Qed.
